(** * RedisPubSub: the subscription registry of graphql-redis-subscriptions

    A shallow embedding of [src/redis-pubsub.ts].

    - The class keeps two JavaScript objects used as maps
      ([subscriptionMap], [subsRefsMap]) and a counter; they are modelled by
      stdpp's [gmap] and an integer.  [m !! k] is [m[k]] for keys that are
      no property of [Object.prototype].  A key that is [null] names the
      property called null, as in JavaScript ([property_key]).
    - Numbers are integers: the counter starts at 0 and stays below 2^53.
    - The Redis clients are modelled by the calls made on them, recorded
      as a list of [event]s, and by what they answer to a subscribe or a
      publish.  [subscribe_call] is [subscribe] up to the return of its
      promise and [subscribe_callback] is the callback it hands to the
      client; [subscribe] runs one after the other, for a client that
      answers before the next call on the registry.
    - Listeners, serializers and deserializers are JavaScript functions:
      they read and write the heap and return or throw.  They do not call
      the registry.
    - [JSON.stringify] and [JSON.parse] are built-ins of the runtime: the
      class is modelled over any [Runtime], and [js_runtime] is the one the
      examples run on; its numbers are integers.

    Module [Js] models the class without the restrictions on keys, on the
    counter and on listeners, and with a trigger transform that may throw;
    section [Agreement] shows that the two models agree where the
    restrictions hold. *)

From Stdlib Require Import ZArith String List Bool Lia Ascii.
From Stdlib Require Import Decimal DecimalString DecimalN DecimalPos DecimalFacts.
From stdpp Require Import base option list strings gmap fin_maps.

Local Open Scope string_scope.
Local Open Scope list_scope.
Local Open Scope nat_scope.

(** ** JavaScript values *)

(** A JSON document. *)
#[warnings="-register-all"]
Inductive json :=
| JNull
| JBool (b : bool)
| JNumber (n : Z)
| JString (s : string)
| JArray (xs : list json)
| JObject (fields : list (string * json)).

Definition loc := nat.

(** What a variable holds: a primitive, or a reference to an object.  Two
    references are the same object exactly when their locations are equal. *)
Inductive jsval :=
| VUndefined
| VNull
| VBool (b : bool)
| VNumber (n : Z)
| VString (s : string)
| VRef (l : loc).

(** The heap holds the content of every object (or array) allocated so far,
    at its location; objects are never freed.  The content of an object is
    a whole document: the objects nested in it have no location of their
    own. *)
Abbreviation heap := (list json) (only parsing).

Definition alloc (h : heap) (content : json) : heap * loc := (h ++ [content], length h).

(** ToBoolean, as used by [!!options['pattern']]. *)
Definition truthy (v : jsval) : bool :=
  match v with
  | VUndefined | VNull => false
  | VBool b => b
  | VNumber n => negb (n =? 0)%Z
  | VString s => negb (String.eqb s "")
  | VRef _ => true
  end.

(** What can be thrown. *)
Inductive exn :=
| ConfigError                   (* line 35: reviver and deserializer together *)
| NoSubscription (subId : Z)    (* line 119: There is no subscription of id *)
| TypeError                     (* the runtime's: destructuring undefined *)
| SyntaxError                   (* JSON.parse *)
| TransportError (msg : string) (* the err a Redis client reports *)
| Thrown (v : jsval).           (* thrown by a function of the caller *)

(** How a call ends. For an async function or a promise, [Normal] is
    fulfilled and [Throw] is rejected. *)
Inductive completion (A : Type) :=
| Normal (a : A)
| Throw (e : exn).
Arguments Normal {A} a.
Arguments Throw {A} e.

(** [onMessage: Function].  [fn_name] tells two functions with the same
    behaviour apart. *)
Record Listener := {
  fn_name : string;
  fn_call : jsval → heap → heap * completion unit;
}.

Abbreviation Options := (gmap string jsval).

Definition TriggerTransform := string → Options → string.
Definition Serializer := jsval → heap → heap * completion string.
Definition Deserializer := string → heap → heap * completion jsval.

(** The built-ins of the JavaScript runtime that the class calls. *)
Class Runtime := {
  Reviver : Type;
  JSON_stringify : jsval → heap → completion (option string);
  JSON_parse : string → option Reviver → heap → heap * completion jsval;
}.

(** Calls made on the Redis clients, and the calls of the decoder and of the
    listeners made by [onMessage], in the order they happen. *)
Inductive event :=
| EvSubscribe (channel : string)
| EvPSubscribe (pattern : string)
| EvUnsubscribe (channel : option string)
| EvPUnsubscribe (pattern : option string)
| EvPublish (channel : string) (message : option string)
| EvDecode (message : string)
| EvCall (listener : Listener) (arg : jsval).

Section RedisPubSub.
Context `{Runtime}.

Record PubSubRedisOptions := {
  opt_triggerTransform : option TriggerTransform;
  opt_reviver : option Reviver;
  opt_serializer : option Serializer;
  opt_deserializer : option Deserializer;
}.

Record RedisPubSub := {
  triggerTransform : TriggerTransform;
  reviver : option Reviver;
  serializer : option Serializer;
  deserializer : option Deserializer;
  subscriptionMap : gmap Z (string * Listener);
  subsRefsMap : gmap string (list Z);
  currentSubscriptionId : Z;
}.

Definition with_subscriptionMap (m : gmap Z (string * Listener)) (this : RedisPubSub) : RedisPubSub :=
  {| triggerTransform := triggerTransform this; reviver := reviver this;
     serializer := serializer this; deserializer := deserializer this;
     subscriptionMap := m; subsRefsMap := subsRefsMap this;
     currentSubscriptionId := currentSubscriptionId this |}.

Definition with_subsRefsMap (m : gmap string (list Z)) (this : RedisPubSub) : RedisPubSub :=
  {| triggerTransform := triggerTransform this; reviver := reviver this;
     serializer := serializer this; deserializer := deserializer this;
     subscriptionMap := subscriptionMap this; subsRefsMap := m;
     currentSubscriptionId := currentSubscriptionId this |}.

Definition with_currentSubscriptionId (n : Z) (this : RedisPubSub) : RedisPubSub :=
  {| triggerTransform := triggerTransform this; reviver := reviver this;
     serializer := serializer this; deserializer := deserializer this;
     subscriptionMap := subscriptionMap this; subsRefsMap := subsRefsMap this;
     currentSubscriptionId := n |}.

(** [constructor], lines 20-75. *)
Definition new_RedisPubSub (options : PubSubRedisOptions) : completion RedisPubSub :=
  match opt_reviver options, opt_deserializer options with
  | Some _, Some _ => Throw ConfigError
  | _, _ =>
      Normal {| triggerTransform := default (λ trigger _, trigger) (opt_triggerTransform options);
                reviver := opt_reviver options;
                serializer := opt_serializer options;
                deserializer := opt_deserializer options;
                subscriptionMap := ∅;
                subsRefsMap := ∅;
                currentSubscriptionId := 0 |}
  end.

(** [publish], lines 77-79.  [reply] is the error the Redis client reports
    for the publish, if any. *)
Definition publish (this : RedisPubSub) (trigger : string) (payload : jsval)
    (reply : option exn) (h : heap) : heap * list event * completion unit :=
  let '(h1, encoded) :=
    match serializer this with
    | Some ser =>
        match ser payload h with
        | (h1, Normal s) => (h1, Normal (Some s))
        | (h1, Throw e) => (h1, Throw e)
        end
    | None => (h, JSON_stringify payload h)
    end in
  match encoded with
  | Throw e => (h1, [], Throw e)
  | Normal message =>
      (h1, [EvPublish trigger message],
       match reply with Some e => Throw e | None => Normal tt end)
  end.

(** The part of [subscribe] that waits for the Redis client: the callback
    of lines 100-110 closes over [triggerName] and [id]. *)
Record PendingSubscribe := {
  pending_triggerName : string;
  pending_id : Z;
}.

(** [subscribe], lines 81-113, up to the return of the promise: either the
    promise is already resolved with the id (line 95), or a subscribe or
    psubscribe was sent and its callback is pending. *)
Definition subscribe_call (this : RedisPubSub) (trigger : string) (onMessage : Listener)
    (options : Options) : RedisPubSub * list event * (Z + PendingSubscribe) :=
  let triggerName := triggerTransform this trigger options in
  let id := currentSubscriptionId this in
  let this1 := with_currentSubscriptionId (id + 1) this in
  let this2 := with_subscriptionMap (<[id := (triggerName, onMessage)]> (subscriptionMap this1)) this1 in
  let refs := subsRefsMap this2 !! triggerName in
  match refs with
  | Some refs' =>
      if (0 <? length refs')%nat then
        let newRefs := refs' ++ [id] in
        (with_subsRefsMap (<[triggerName := newRefs]> (subsRefsMap this2)) this2, [], inl id)
      else
        (this2,
         [if truthy (default VUndefined (options !! "pattern"))
          then EvPSubscribe triggerName else EvSubscribe triggerName],
         inr {| pending_triggerName := triggerName; pending_id := id |})
  | None =>
      (this2,
       [if truthy (default VUndefined (options !! "pattern"))
        then EvPSubscribe triggerName else EvSubscribe triggerName],
       inr {| pending_triggerName := triggerName; pending_id := id |})
  end.

(** The callback of lines 100-110, run when the Redis client answers. *)
Definition subscribe_callback (p : PendingSubscribe) (err : option exn)
    (this : RedisPubSub) : RedisPubSub * completion Z :=
  match err with
  | Some e => (this, Throw e)
  | None =>
      let triggerName := pending_triggerName p in
      (with_subsRefsMap
         (<[triggerName := default [] (subsRefsMap this !! triggerName) ++ [pending_id p]]>
            (subsRefsMap this)) this,
       Normal (pending_id p))
  end.

(** [subscribe] with a Redis client that answers (with [err]) before
    anything else runs. *)
Definition subscribe (this : RedisPubSub) (trigger : string) (onMessage : Listener)
    (options : Options) (err : option exn) : RedisPubSub * list event * completion Z :=
  match subscribe_call this trigger onMessage options with
  | (this1, evs, inl id) => (this1, evs, Normal id)
  | (this1, evs, inr p) =>
      let '(this2, r) := subscribe_callback p err this1 in (this2, evs, r)
  end.

(** The key a value is looked up under: [this.subsRefsMap[null]] reads the
    property named by the string null. *)
Definition property_key (k : option string) : string :=
  match k with
  | Some s => s
  | None => "null"
  end.

(** [Array.prototype.indexOf]. *)
Fixpoint indexOf_from (x : Z) (l : list Z) (i : Z) : Z :=
  match l with
  | [] => (-1)%Z
  | y :: l' => if (y =? x)%Z then i else indexOf_from x l' (i + 1)%Z
  end.

Definition indexOf (l : list Z) (x : Z) : Z := indexOf_from x l 0%Z.

(** [refs.slice(from)] and [refs.slice(0, to)] for indexes within range. *)
Definition slice_to (l : list Z) (to : Z) : list Z := take (Z.to_nat to) l.
Definition slice_from (l : list Z) (from : Z) : list Z := drop (Z.to_nat from) l.

(** [unsubscribe], lines 115-136. *)
Definition unsubscribe (this : RedisPubSub) (subId : Z)
    : RedisPubSub * list event * completion unit :=
  let triggerName : option string :=
    match subscriptionMap this !! subId with
    | Some (t, _) => Some t
    | None => None
    end in
  let refs := subsRefsMap this !! property_key triggerName in
  match refs with
  | None => (this, [], Throw (NoSubscription subId))
  | Some refs' =>
      let '(this1, evs) :=
        if (length refs' =? 1)%nat then
          (with_subsRefsMap (delete (property_key triggerName) (subsRefsMap this)) this,
           [EvUnsubscribe triggerName; EvPUnsubscribe triggerName])
        else
          let index := indexOf refs' subId in
          let newRefs :=
            if (index =? -1)%Z then refs'
            else slice_to refs' index ++ slice_from refs' (index + 1) in
          (with_subsRefsMap (<[property_key triggerName := newRefs]> (subsRefsMap this)) this, [])
      in
      (with_subscriptionMap (delete subId (subscriptionMap this1)) this1, evs, Normal tt)
  end.

(** [pattern || channel], line 158: an undefined or empty pattern gives the
    channel. *)
Definition dispatch_key (pattern : option string) (channel : string) : string :=
  match pattern with
  | Some p => if String.eqb p "" then channel else p
  | None => channel
  end.

(** Line 165. *)
Definition decode (this : RedisPubSub) (message : string) (h : heap)
    : heap * completion jsval :=
  match deserializer this with
  | Some deser => deser message h
  | None => JSON_parse message (reviver this) h
  end.

(** Lines 163-168: the try/catch around the decoder. *)
Definition parse_message (this : RedisPubSub) (message : string) (h : heap)
    : heap * jsval :=
  match decode this message h with
  | (h1, Normal v) => (h1, v)
  | (h1, Throw _) => (h1, VString message)
  end.

(** Lines 170-173: the loop over the subscribers. *)
Fixpoint fan_out (this : RedisPubSub) (parsedMessage : jsval) (subscribers : list Z)
    (h : heap) : heap * list event * completion unit :=
  match subscribers with
  | [] => (h, [], Normal tt)
  | subId :: rest =>
      match subscriptionMap this !! subId with
      | None => (h, [], Throw TypeError)
      | Some (_, listener) =>
          match fn_call listener parsedMessage h with
          | (h1, Throw e) => (h1, [EvCall listener parsedMessage], Throw e)
          | (h1, Normal _) =>
              let '(h2, evs, r) := fan_out this parsedMessage rest h1 in
              (h2, EvCall listener parsedMessage :: evs, r)
          end
      end
  end.

(** [onMessage], lines 157-174. *)
Definition onMessage (this : RedisPubSub) (pattern : option string) (channel : string)
    (message : string) (h : heap) : heap * list event * completion unit :=
  match subsRefsMap this !! dispatch_key pattern channel with
  | None => (h, [], Normal tt)
  | Some subscribers =>
      if (length subscribers =? 0)%nat then (h, [], Normal tt)
      else
        let '(h1, parsedMessage) := parse_message this message h in
        let '(h2, evs, r) := fan_out this parsedMessage subscribers h1 in
        (h2, EvDecode message :: evs, r)
  end.

End RedisPubSub.

(** ** The runtime's JSON object

    [JSON.stringify] and [JSON.parse] belong to the JavaScript runtime, not
    to the repository.  This is their grammar (ECMA-404) on [json]: strings
    are strings of bytes, numbers are integers.  A numeral with a fraction
    or an exponent denotes a double that [json] does not hold, and is
    refused. *)
Module JSON.

Definition dquote : ascii := Ascii false true false false false true false false.
Definition backslash : ascii := Ascii false false true true true false true false.

Definition is_ws (c : ascii) : bool :=
  let n := nat_of_ascii c in
  (n =? 32) || (n =? 9) || (n =? 10) || (n =? 13).

Fixpoint skip_ws (s : string) : string :=
  match s with
  | String c s' => if is_ws c then skip_ws s' else s
  | EmptyString => s
  end.

(** *** JSON.stringify *)

Definition hex_digit (n : nat) : ascii :=
  nth n (list_ascii_of_string "0123456789abcdef") "0"%char.

Definition escape_char (c : ascii) : string :=
  let n := nat_of_ascii c in
  if Ascii.eqb c dquote then String backslash (String dquote "")
  else if Ascii.eqb c backslash then String backslash (String backslash "")
  else if n =? 8 then String backslash "b"
  else if n =? 9 then String backslash "t"
  else if n =? 10 then String backslash "n"
  else if n =? 12 then String backslash "f"
  else if n =? 13 then String backslash "r"
  else if n <? 32 then
    String backslash (String "u" (String "0" (String "0"
      (String (hex_digit (n / 16)) (String (hex_digit (n mod 16)) "")))))
  else String c "".

Fixpoint escape (s : string) : string :=
  match s with
  | EmptyString => EmptyString
  | String c s' => escape_char c +:+ escape s'
  end.

Definition quote (s : string) : string :=
  String dquote (escape s +:+ String dquote "").

Definition number_to_string (n : Z) : string :=
  NilEmpty.string_of_int (Z.to_int n).

Fixpoint stringify (j : json) : string :=
  match j with
  | JNull => "null"
  | JBool true => "true"
  | JBool false => "false"
  | JNumber n => number_to_string n
  | JString s => quote s
  | JArray xs =>
      "[" +:+
      (fix elements (xs : list json) : string :=
         match xs with
         | [] => "]"
         | x :: xs' =>
             stringify x +:+
             match xs' with
             | [] => "]"
             | _ :: _ => "," +:+ elements xs'
             end
         end) xs
  | JObject fields =>
      "{" +:+
      (fix members (fields : list (string * json)) : string :=
         match fields with
         | [] => "}"
         | (k, v) :: fields' =>
             quote k +:+ ":" +:+ stringify v +:+
             match fields' with
             | [] => "}"
             | _ :: _ => "," +:+ members fields'
             end
         end) fields
  end.

(** The elements of an array and the bracket that closes it. *)
Fixpoint stringify_elements (xs : list json) : string :=
  match xs with
  | [] => "]"
  | x :: xs' =>
      stringify x +:+
      match xs' with
      | [] => "]"
      | _ :: _ => "," +:+ stringify_elements xs'
      end
  end.

(** The members of an object and the brace that closes it. *)
Fixpoint stringify_members (fields : list (string * json)) : string :=
  match fields with
  | [] => "}"
  | (k, v) :: fields' =>
      quote k +:+ ":" +:+ stringify v +:+
      match fields' with
      | [] => "}"
      | _ :: _ => "," +:+ stringify_members fields'
      end
  end.

(** *** JSON.parse *)

Definition hex_value (c : ascii) : option nat :=
  let n := nat_of_ascii c in
  if (48 <=? n) && (n <=? 57) then Some (n - 48)
  else if (97 <=? n) && (n <=? 102) then Some (n - 87)
  else if (65 <=? n) && (n <=? 70) then Some (n - 55)
  else None.

Definition unicode_escape (a b c d : ascii) : option ascii :=
  match hex_value a, hex_value b, hex_value c, hex_value d with
  | Some 0, Some 0, Some x, Some y => Some (ascii_of_nat (16 * x + y))
  | _, _, _, _ => None
  end.

(** The characters of a string literal after its opening quote, and what
    follows the closing quote. *)
Fixpoint parse_string_body (s : string) : option (string * string) :=
  match s with
  | EmptyString => None
  | String c rest =>
      if Ascii.eqb c dquote then Some (EmptyString, rest)
      else if Ascii.eqb c backslash then
        match rest with
        | EmptyString => None
        | String e rest1 =>
            let continue (x : ascii) (tail : string) :=
              match parse_string_body tail with
              | Some (body, r) => Some (String x body, r)
              | None => None
              end in
            if Ascii.eqb e dquote then continue dquote rest1
            else if Ascii.eqb e backslash then continue backslash rest1
            else if Ascii.eqb e "/" then continue "/"%char rest1
            else if Ascii.eqb e "b" then continue (ascii_of_nat 8) rest1
            else if Ascii.eqb e "t" then continue (ascii_of_nat 9) rest1
            else if Ascii.eqb e "n" then continue (ascii_of_nat 10) rest1
            else if Ascii.eqb e "f" then continue (ascii_of_nat 12) rest1
            else if Ascii.eqb e "r" then continue (ascii_of_nat 13) rest1
            else if Ascii.eqb e "u" then
              match rest1 with
              | String a (String b (String c' (String d rest2))) =>
                  match unicode_escape a b c' d with
                  | Some x => continue x rest2
                  | None => None
                  end
              | _ => None
              end
            else None
        end
      else if nat_of_ascii c <? 32 then None
      else
        match parse_string_body rest with
        | Some (body, r) => Some (String c body, r)
        | None => None
        end
  end.

Definition digit_of (c : ascii) : option (uint → uint) :=
  match nat_of_ascii c - 48, (48 <=? nat_of_ascii c) with
  | 0, true => Some D0 | 1, _ => Some D1 | 2, _ => Some D2 | 3, _ => Some D3
  | 4, _ => Some D4 | 5, _ => Some D5 | 6, _ => Some D6 | 7, _ => Some D7
  | 8, _ => Some D8 | 9, _ => Some D9
  | _, _ => None
  end.

(** The longest run of digits at the start of [s], and what follows. *)
Fixpoint read_uint (s : string) : uint * string :=
  match s with
  | EmptyString => (Nil, s)
  | String c rest =>
      match digit_of c with
      | Some d => let '(u, r) := read_uint rest in (d u, r)
      | None => (Nil, s)
      end
  end.

(** The digits of a number without fraction or exponent; numerals with
    one denote doubles that are no integers and are outside [json]. *)
Definition parse_magnitude (s : string) : option (N * string) :=
  match read_uint s with
  | (Nil, _) => None
  | (D0 (D0 _ | D1 _ | D2 _ | D3 _ | D4 _ | D5 _ | D6 _ | D7 _ | D8 _ | D9 _), _) => None
  | (u, r) =>
      match r with
      | String ("." | "e" | "E") _ => None
      | _ => Some (N.of_uint u, r)
      end
  end.

Definition parse_number (s : string) : option (Z * string) :=
  match s with
  | String "-" s1 =>
      match parse_magnitude s1 with
      | Some (m, r) => Some (Z.opp (Z.of_N m), r)
      | None => None
      end
  | _ =>
      match parse_magnitude s with
      | Some (m, r) => Some (Z.of_N m, r)
      | None => None
      end
  end.

(** [s] without its prefix [word]. *)
Fixpoint strip_prefix (word s : string) : option string :=
  match word with
  | EmptyString => Some s
  | String a word' =>
      match s with
      | String b s' => if Ascii.eqb a b then strip_prefix word' s' else None
      | EmptyString => None
      end
  end.

Definition expect (word : string) (j : json) (s : string) : option (json * string) :=
  match strip_prefix word s with
  | Some r => Some (j, r)
  | None => None
  end.

(** A later member replaces an earlier one of the same name, in its place. *)
Fixpoint set_member (k : string) (v : json) (fields : list (string * json)) : list (string * json) :=
  match fields with
  | [] => [(k, v)]
  | (k', v') :: fields' =>
      if String.eqb k' k then (k', v) :: fields' else (k', v') :: set_member k v fields'
  end.

(** [s] after blanks and the character [c], when that is what comes next. *)
Definition next_is (c : ascii) (s : string) : option string :=
  match skip_ws s with
  | String c' r => if Ascii.eqb c' c then Some r else None
  | EmptyString => None
  end.

Fixpoint parse_value (fuel : nat) (s : string) : option (json * string) :=
  match fuel with
  | O => None
  | S fuel' =>
      match skip_ws s with
      | EmptyString => None
      | String c rest =>
          if Ascii.eqb c "n" then expect "ull" JNull rest
          else if Ascii.eqb c "t" then expect "rue" (JBool true) rest
          else if Ascii.eqb c "f" then expect "alse" (JBool false) rest
          else if Ascii.eqb c dquote then
            match parse_string_body rest with
            | Some (str, r) => Some (JString str, r)
            | None => None
            end
          else if Ascii.eqb c "[" then
            match next_is "]" rest with
            | Some r => Some (JArray [], r)
            | None =>
                match parse_elements fuel' rest with
                | Some (xs, r) => Some (JArray xs, r)
                | None => None
                end
            end
          else if Ascii.eqb c "{" then
            match next_is "}" rest with
            | Some r => Some (JObject [], r)
            | None =>
                match parse_members fuel' rest [] with
                | Some (fields, r) => Some (JObject fields, r)
                | None => None
                end
            end
          else
            match parse_number (String c rest) with
            | Some (n, r) => Some (JNumber n, r)
            | None => None
            end
      end
  end
with parse_elements (fuel : nat) (s : string) : option (list json * string) :=
  match fuel with
  | O => None
  | S fuel' =>
      match parse_value fuel' s with
      | None => None
      | Some (x, r) =>
          match next_is "]" r with
          | Some r' => Some ([x], r')
          | None =>
              match next_is "," r with
              | Some r' =>
                  match parse_elements fuel' r' with
                  | Some (xs, r'') => Some (x :: xs, r'')
                  | None => None
                  end
              | None => None
              end
          end
      end
  end
with parse_members (fuel : nat) (s : string) (acc : list (string * json))
    : option (list (string * json) * string) :=
  match fuel with
  | O => None
  | S fuel' =>
      match next_is dquote s with
      | None => None
      | Some rest =>
          match parse_string_body rest with
          | None => None
          | Some (k, r) =>
              match next_is ":" r with
              | None => None
              | Some r1 =>
                  match parse_value fuel' r1 with
                  | None => None
                  | Some (v, r2) =>
                      match next_is "}" r2 with
                      | Some r3 => Some (set_member k v acc, r3)
                      | None =>
                          match next_is "," r2 with
                          | Some r3 => parse_members fuel' r3 (set_member k v acc)
                          | None => None
                          end
                      end
                  end
              end
          end
      end
  end.

(** The whole text is one value, with blanks around it. *)
Definition parse (s : string) : option json :=
  match parse_value (2 * String.length s + 2) s with
  | Some (j, r) =>
      match skip_ws r with
      | EmptyString => Some j
      | _ => None
      end
  | None => None
  end.

(** *** Notions used to state the round trip *)

(** The documents that are the content of a JavaScript value: an object has
    each of its property names once. *)
#[warnings="-register-all"]
Inductive well_formed : json → Prop :=
| wf_null : well_formed JNull
| wf_bool b : well_formed (JBool b)
| wf_number n : well_formed (JNumber n)
| wf_string s : well_formed (JString s)
| wf_array xs : Forall well_formed xs → well_formed (JArray xs)
| wf_object fields :
    NoDup fields.*1 → Forall (λ kv, well_formed kv.2) fields →
    well_formed (JObject fields).

(** Induction on a document reaches the elements of its arrays and the
    values of its objects. *)
Section json_induction.
Variable P : json → Prop.
Hypothesis Hnull : P JNull.
Hypothesis Hbool : ∀ b, P (JBool b).
Hypothesis Hnumber : ∀ n, P (JNumber n).
Hypothesis Hstring : ∀ s, P (JString s).
Hypothesis Harray : ∀ xs, Forall P xs → P (JArray xs).
Hypothesis Hobject : ∀ fields, Forall (λ kv, P kv.2) fields → P (JObject fields).

Fixpoint json_nested_ind (j : json) : P j :=
  match j with
  | JNull => Hnull
  | JBool b => Hbool b
  | JNumber n => Hnumber n
  | JString s => Hstring s
  | JArray xs =>
      Harray xs
        ((fix all (xs : list json) : Forall P xs :=
            match xs with
            | [] => @List.Forall_nil _ P
            | x :: xs' => @List.Forall_cons _ P x xs' (json_nested_ind x) (all xs')
            end) xs)
  | JObject fields =>
      Hobject fields
        ((fix all (fields : list (string * json)) : Forall (λ kv, P kv.2) fields :=
            match fields with
            | [] => @List.Forall_nil _ _
            | kv :: fields' =>
                @List.Forall_cons _ (λ kv, P kv.2) kv fields' (json_nested_ind kv.2) (all fields')
            end) fields)
  end.
End json_induction.

(** What may follow a value inside a document. *)
Definition terminated (rest : string) : bool :=
  match rest with
  | EmptyString => true
  | String c _ => Ascii.eqb c "," || Ascii.eqb c "]" || Ascii.eqb c "}"
  end.

(** A printed value starts with a character that is no blank and closes
    nothing. *)
Definition opens_value (c : ascii) : bool :=
  negb (is_ws c) && negb (Ascii.eqb c "]") && negb (Ascii.eqb c "}").

(** [j] printed before what may follow a value is read back as [j],
    with enough fuel. *)
Definition reads_back (j : json) : Prop :=
  ∀ rest fuel,
    terminated rest = true →
    String.length (stringify j) ≤ fuel →
    parse_value fuel (stringify j +:+ rest) = Some (j, rest).

(** The members read from a printed object, added to those read before. *)
Definition add_members (fields acc : list (string * json)) : list (string * json) :=
  fold_left (λ acc kv, set_member kv.1 kv.2 acc) fields acc.

End JSON.

(** The documents whose numbers are integers that a double holds
    exactly, and that [JSON.stringify] prints in digits. *)
Fixpoint numbers_exact (j : json) : bool :=
  match j with
  | JNumber n => (Z.abs n <=? 2 ^ 53)%Z
  | JArray xs => forallb numbers_exact xs
  | JObject fields => forallb (λ kv, numbers_exact kv.2) fields
  | JNull | JBool _ | JString _ => true
  end.

(** The content of a value: the document it holds or refers to. *)
Definition content (h : heap) (v : jsval) : option json :=
  match v with
  | VUndefined => None
  | VNull => Some JNull
  | VBool b => Some (JBool b)
  | VNumber n => Some (JNumber n)
  | VString s => Some (JString s)
  | VRef l => h !! l
  end.

(** The value [JSON.parse] returns for a document: a primitive, or a new
    object. *)
Definition value_of_json (j : json) (h : heap) : heap * jsval :=
  match j with
  | JNull => (h, VNull)
  | JBool b => (h, VBool b)
  | JNumber n => (h, VNumber n)
  | JString s => (h, VString s)
  | JArray _ | JObject _ => let '(h1, l) := alloc h j in (h1, VRef l)
  end.

(** A reviver stands for what [JSON.parse] computes with it from the parsed
    document (the walk of InternalizeJSONProperty).  Numbers are integers,
    printed in digits: a text with a fraction or an exponent is refused, and
    of the escapes [\u] only those of the characters below 256 are read. *)
#[global] Instance js_runtime : Runtime := {|
  Reviver := json → heap → heap * completion jsval;
  JSON_stringify v h :=
    match v with
    | VUndefined => Normal None
    | _ =>
        match content h v with
        | Some j => Normal (Some (JSON.stringify j))
        | None => Throw TypeError
        end
    end;
  JSON_parse text rv h :=
    match JSON.parse text with
    | None => (h, Throw SyntaxError)
    | Some j =>
        match rv with
        | None => let '(h1, v) := value_of_json j h in (h1, Normal v)
        | Some r => r j h
        end
    end;
|}.

(** ** Registries and listeners used in the examples *)

(** A registry as [new RedisPubSub()] leaves it. *)
Definition default_options : PubSubRedisOptions :=
  {| opt_triggerTransform := None; opt_reviver := None;
     opt_serializer := None; opt_deserializer := None |}.

Definition fresh_registry : RedisPubSub :=
  {| triggerTransform := λ trigger _, trigger; reviver := None;
     serializer := None; deserializer := None;
     subscriptionMap := ∅; subsRefsMap := ∅; currentSubscriptionId := 0 |}.

(** A listener that returns. *)
Definition listener_ok (name : string) : Listener :=
  {| fn_name := name; fn_call := λ _ h, (h, Normal tt) |}.

(** A listener that throws what it is given. *)
Definition listener_throws (name : string) : Listener :=
  {| fn_name := name; fn_call := λ v h, (h, Throw (Thrown v)) |}.


(** A listener that writes to the object it is given, as in
    [payload => { payload.seen = true }]. *)
Definition listener_marks (name : string) : Listener :=
  {| fn_name := name;
     fn_call := λ v h, match v with
                       | VRef l => (<[l := JObject [("seen", JBool true)]]> h, Normal tt)
                       | _ => (h, Normal tt)
                       end |}.

(** A listener that keeps a copy of what it is given, as in
    [payload => { log.push({...payload}) }]. *)
Definition listener_copies (name : string) : Listener :=
  {| fn_name := name;
     fn_call := λ v h, match content h v with
                       | Some j => (h ++ [j], Normal tt)
                       | None => (h, Normal tt)
                       end |}.

(** The state of a registry after a successful [subscribe]. *)
Definition subscribed (this : RedisPubSub) (trigger : string) (l : Listener)
    (options : Options) : RedisPubSub :=
  (subscribe this trigger l options None).1.1.

(** The state of a registry after [unsubscribe]. *)
Definition unsubscribed (this : RedisPubSub) (subId : Z) : RedisPubSub :=
  (unsubscribe this subId).1.1.

(** The error of a Redis client that refuses a subscribe. *)
Definition refused : option exn := Some (TransportError "ECONNREFUSED").

(** One subscription, id 0. *)
Definition chat_registry : RedisPubSub :=
  subscribed fresh_registry "chat.room1" (listener_ok "L") ∅.

(** One subscription to the trigger named null. *)
Definition null_registry : RedisPubSub :=
  subscribed fresh_registry "null" (listener_ok "L") ∅.

(** Two subscriptions to one channel; the listener of the first throws. *)
Definition news_registry : RedisPubSub :=
  subscribed (subscribed fresh_registry "news" (listener_throws "L1") ∅)
    "news" (listener_ok "L2") ∅.

(** Three subscriptions to one channel; the listener of the second throws. *)
Definition ticks_registry : RedisPubSub :=
  subscribed
    (subscribed (subscribed fresh_registry "ticks" (listener_ok "L1") ∅)
       "ticks" (listener_throws "L2") ∅)
    "ticks" (listener_ok "L3") ∅.




(** The first listener writes to the object, the second copies what it is
    given. *)
Definition audit_registry : RedisPubSub :=
  subscribed (subscribed fresh_registry "audit" (listener_marks "L1") ∅)
    "audit" (listener_copies "L2") ∅.

(** The same with a first listener that throws. *)
Definition failing_audit_registry : RedisPubSub :=
  subscribed (subscribed fresh_registry "audit" (listener_throws "L1") ∅)
    "audit" (listener_copies "L2") ∅.

(** The document of the message [{"a":1}]. *)
Definition a1 : json := JObject [("a", JNumber 1)].
Definition a1_text : string := Eval vm_compute in JSON.stringify a1.

(** ** Notions used to state the properties *)

Section Notions.
Context `{Runtime}.

(** [ev] is the call of the listener of subscription [subId] with [v]. *)
Definition delivery (this : RedisPubSub) (v : jsval) (subId : Z) (ev : event) : Prop :=
  ∃ t l, subscriptionMap this !! subId = Some (t, l) ∧ ev = EvCall l v.

(** How many times the decoder was called. *)
Definition is_decode (ev : event) : bool :=
  match ev with
  | EvDecode _ => true
  | _ => false
  end.

Definition decodings (evs : list event) : nat :=
  length (List.filter is_decode evs).

(** Every id of a list of [subsRefsMap] has its record in
    [subscriptionMap], under the key of the list. *)
Definition refs_have_records (this : RedisPubSub) : Prop :=
  ∀ k refs subId,
    subsRefsMap this !! k = Some refs → subId ∈ refs →
    ∃ l, subscriptionMap this !! subId = Some (k, l).

(** Every record of [subscriptionMap] has its id in the list of its
    trigger name. *)
Definition records_have_refs (this : RedisPubSub) : Prop :=
  ∀ subId k l,
    subscriptionMap this !! subId = Some (k, l) →
    ∃ refs, subsRefsMap this !! k = Some refs ∧ subId ∈ refs.

(** No list of [subsRefsMap] is empty or holds an id twice. *)
Definition refs_distinct (this : RedisPubSub) : Prop :=
  ∀ k refs, subsRefsMap this !! k = Some refs → NoDup refs ∧ refs ≠ [].

(** Every id in use was handed out by the counter. *)
Definition ids_issued (this : RedisPubSub) : Prop :=
  ∀ subId r, subscriptionMap this !! subId = Some r →
    (subId < currentSubscriptionId this)%Z.

(** What holds of the two tables and the counter between complete calls of
    [subscribe] and [unsubscribe]. *)
Definition consistent (this : RedisPubSub) : Prop :=
  refs_have_records this ∧ refs_distinct this ∧ ids_issued this.

(** What lines 128-132 compute: the list without the first [subId]. *)
Definition without_first (refs : list Z) (subId : Z) : list Z :=
  let index := indexOf refs subId in
  if (index =? -1)%Z then refs
  else slice_to refs index ++ slice_from refs (index + 1).

(** The calls a client of the registry makes, each run to its end before
    the next. *)
Inductive operation :=
| OpSubscribe (trigger : string) (onMessage : Listener) (options : Options) (err : option exn)
| OpUnsubscribe (subId : Z).

Definition run_operation (this : RedisPubSub) (op : operation) : RedisPubSub :=
  match op with
  | OpSubscribe trigger l options err => (subscribe this trigger l options err).1.1
  | OpUnsubscribe subId => (unsubscribe this subId).1.1
  end.

Definition run_operations (this : RedisPubSub) (ops : list operation) : RedisPubSub :=
  fold_left run_operation ops this.

End Notions.

(** ** Notions used for the rest of the class *)

Section More_notions.
Context `{Runtime}.

(** Lines 68 and 70 of the constructor: the handler of the client's
    pmessage event is [onMessage], and the handler of its message event is
    [onMessage] with undefined for the pattern. *)
Definition on_pmessage (this : RedisPubSub) (pattern channel message : string)
    (h : heap) : heap * list event * completion unit :=
  onMessage this (Some pattern) channel message h.

Definition on_message (this : RedisPubSub) (channel message : string)
    (h : heap) : heap * list event * completion unit :=
  onMessage this None channel message h.

(** The subscribe or psubscribe that lines 98-100 send. *)
Definition transport_subscribe (options : Options) (triggerName : string) : event :=
  if truthy (default VUndefined (options !! "pattern"))
  then EvPSubscribe triggerName else EvSubscribe triggerName.

(** The channel whose list [unsubscribe] reads. *)
Definition channel_of (this : RedisPubSub) (subId : Z) : string :=
  property_key (match subscriptionMap this !! subId with
                | Some (t, _) => Some t
                | None => None
                end).

End More_notions.

(** ** Registries and calls used in the examples of the rest of the class *)

(** Two subscriptions to two channels. *)
Definition two_channel_registry : RedisPubSub :=
  subscribed (subscribed fresh_registry "chat" (listener_ok "L1") ∅)
    "news" (listener_copies "L2") ∅.

(** One subscription to a pattern. *)
Definition pattern_registry : RedisPubSub :=
  subscribed fresh_registry "news.*" (listener_ok "L") {["pattern" := VBool true]}.

(** Two subscribes to a channel without a list, both sent to the Redis
    client before it answers; the second is confirmed, the first is
    unsubscribed and then confirmed. *)
Definition stranded_registry : RedisPubSub :=
  let this1 := (subscribe_call fresh_registry "chat" (listener_ok "L1") ∅).1.1 in
  let this2 := (subscribe_call this1 "chat" (listener_ok "L2") ∅).1.1 in
  let this3 :=
    (subscribe_callback {| pending_triggerName := "chat"; pending_id := 1 |} None this2).1 in
  let this4 := unsubscribed this3 0 in
  (subscribe_callback {| pending_triggerName := "chat"; pending_id := 0 |} None this4).1.

(** Calls of a client: a refused subscribe, two accepted ones, and two
    calls of [unsubscribe], the second with an id that was never handed
    out. *)
Definition mixed_calls : list operation :=
  [OpSubscribe "chat" (listener_ok "L1") ∅ refused;
   OpSubscribe "chat" (listener_ok "L2") ∅ None;
   OpSubscribe "news" (listener_ok "L3") ∅ None;
   OpUnsubscribe 1;
   OpUnsubscribe 7].

(** * The class on every input

    The definitions above read the two tables with [!!], count with
    integers, take a trigger transform that returns and listeners that
    leave the registry alone.  The definitions of this module drop the four
    restrictions: [subsRefsMap] is a plain object, whose properties are
    looked up along its prototype ([get]); the counter is a double
    ([increment]); the trigger transform may throw; and a listener may call
    [subscribe] and [unsubscribe] while a message is delivered
    ([Function]). *)

Module Js.

(** ** Plain objects *)

(** What [Object.prototype] holds under a name: a method, of which the
    code can only see the [length], or, under [__proto__], the prototype
    object itself. *)
Inductive inherited :=
| Method (arity : nat)
| Prototype.

(** The methods of [Object.prototype] and their [length]. *)
Definition Object_prototype_methods : list (string * nat) :=
  [("constructor", 1); ("hasOwnProperty", 1); ("isPrototypeOf", 1);
   ("propertyIsEnumerable", 1); ("toLocaleString", 0); ("toString", 0);
   ("valueOf", 0); ("__defineGetter__", 2); ("__defineSetter__", 2);
   ("__lookupGetter__", 1); ("__lookupSetter__", 1)].

Fixpoint method_arity (methods : list (string * nat)) (k : string) : option nat :=
  match methods with
  | [] => None
  | (name, n) :: methods' => if String.eqb name k then Some n else method_arity methods' k
  end.

Definition Object_prototype (k : string) : option inherited :=
  if String.eqb k "__proto__" then Some Prototype
  else Method <$> method_arity Object_prototype_methods k.

(** What [o[k]] evaluates to, for an object [o] created by [{}] whose own
    properties are the entries of the map: the own property when there is
    one, else what [Object.prototype] holds, else undefined. *)
Inductive property (A : Type) :=
| Own (a : A)
| Inherited (i : inherited)
| Undefined.
Arguments Own {A} a.
Arguments Inherited {A} i.
Arguments Undefined {A}.

Definition get {A : Type} (o : gmap string A) (k : string) : property A :=
  match o !! k with
  | Some a => Own a
  | None =>
      match Object_prototype k with
      | Some i => Inherited i
      | None => Undefined
      end
  end.

(** ** Numbers *)

(** The double nearest to an integer, ties to the even mantissa (of 53
    bits).  The exponent of a double is not bounded here: the counter stays
    far below 2^1023. *)
Definition round_to_double (z : Z) : Z :=
  let e := Z.max 0 (Z.log2 (Z.abs z) + 1 - 53) in
  let q := (Z.abs z / 2 ^ e)%Z in
  let r := (Z.abs z mod 2 ^ e)%Z in
  let up := (2 ^ e <? 2 * r)%Z || ((2 ^ e =? 2 * r)%Z && Z.odd q) in
  (Z.sgn z * ((if up then q + 1 else q) * 2 ^ e))%Z.

(** [n + 1] on doubles, as in [this.currentSubscriptionId++]. *)
Definition increment (n : Z) : Z := round_to_double (n + 1).

(** ** Functions given to [subscribe] *)

(** A function given as [onMessage] is a listener as above, together with
    the calls it makes on the registry while it runs, in the order it makes
    them.  It does not catch what these calls throw. *)
Inductive Function :=
| Fn (listener : Listener) (calls : jsval → list json → list call)
with call :=
| CallSubscribe (trigger : string) (onMessage : Function) (options : Options)
| CallUnsubscribe (subId : Z).

Definition listener (f : Function) : Listener :=
  match f with Fn l _ => l end.

Definition calls (f : Function) : jsval → list json → list call :=
  match f with Fn _ c => c end.

(** What becomes of the promise that [subscribe] returned, once the
    callback handed to the Redis client has run. *)
Inductive settlement :=
| Resolved (id : Z)
| Rejected (e : exn)
| Unsettled (e : exn).  (* the callback threw [e] before it settled the promise *)

(** How a call of [subscribe] ends. *)
Inductive subscribe_result :=
| Throws (e : exn)      (* [subscribe] throws and returns no promise *)
| Promise (s : settlement).

Section RedisPubSub.
Context `{Runtime}.

Record PubSubRedisOptions := {
  opt_triggerTransform : option (string → Options → completion string);
  opt_subscriber : bool;  (* [options.subscriber] is given *)
  opt_publisher : bool;   (* [options.publisher] is given *)
  opt_reviver : option Reviver;
  opt_serializer : option Serializer;
  opt_deserializer : option Deserializer;
}.

Record RedisPubSub := {
  triggerTransform : string → Options → completion string;
  reviver : option Reviver;
  serializer : option Serializer;
  deserializer : option Deserializer;
  subscriptionMap : gmap Z (string * Function);
  subsRefsMap : gmap string (list Z);
  currentSubscriptionId : Z;
}.

Definition with_subscriptionMap (m : gmap Z (string * Function)) (this : RedisPubSub) : RedisPubSub :=
  {| triggerTransform := triggerTransform this; reviver := reviver this;
     serializer := serializer this; deserializer := deserializer this;
     subscriptionMap := m; subsRefsMap := subsRefsMap this;
     currentSubscriptionId := currentSubscriptionId this |}.

Definition with_subsRefsMap (m : gmap string (list Z)) (this : RedisPubSub) : RedisPubSub :=
  {| triggerTransform := triggerTransform this; reviver := reviver this;
     serializer := serializer this; deserializer := deserializer this;
     subscriptionMap := subscriptionMap this; subsRefsMap := m;
     currentSubscriptionId := currentSubscriptionId this |}.

Definition with_currentSubscriptionId (n : Z) (this : RedisPubSub) : RedisPubSub :=
  {| triggerTransform := triggerTransform this; reviver := reviver this;
     serializer := serializer this; deserializer := deserializer this;
     subscriptionMap := subscriptionMap this; subsRefsMap := subsRefsMap this;
     currentSubscriptionId := n |}.

(** [constructor], lines 20-75.  [ioredis_subscriber] tells whether lines
    47-49 get as far as creating the subscriber client: whether
    [require('ioredis')] and the two [new IORedis(connection)] return.
    When they do not, the catch of line 60 logs, and line 68 reads [on] of
    undefined. *)
Definition new_RedisPubSub (ioredis_subscriber : bool) (options : PubSubRedisOptions)
    : completion RedisPubSub :=
  match opt_reviver options, opt_deserializer options with
  | Some _, Some _ => Throw ConfigError
  | _, _ =>
      if (opt_subscriber options && opt_publisher options) || ioredis_subscriber then
        Normal {| triggerTransform :=
                    default (λ trigger _, Normal trigger) (opt_triggerTransform options);
                  reviver := opt_reviver options;
                  serializer := opt_serializer options;
                  deserializer := opt_deserializer options;
                  subscriptionMap := ∅; subsRefsMap := ∅;
                  currentSubscriptionId := 0 |}
      else Throw TypeError
  end.

(** [subscribe], lines 81-113, up to its return: it throws, or returns a
    promise that is resolved with the id (line 95), or returns a promise
    that waits for the callback of lines 100-110.  Spreading a function
    ([...refs] at line 93 when [refs] is inherited) throws a TypeError. *)
Definition subscribe_call (this : RedisPubSub) (trigger : string) (onMessage : Function)
    (options : Options) : RedisPubSub * list event * completion (Z + PendingSubscribe) :=
  match triggerTransform this trigger options with
  | Throw e => (this, [], Throw e)
  | Normal triggerName =>
      let id := currentSubscriptionId this in
      let this1 := with_currentSubscriptionId (increment id) this in
      let this2 :=
        with_subscriptionMap (<[id := (triggerName, onMessage)]> (subscriptionMap this1)) this1 in
      let pending :=
        (this2, [transport_subscribe options triggerName],
         Normal (inr {| pending_triggerName := triggerName; pending_id := id |})) in
      match get (subsRefsMap this2) triggerName with
      | Own refs =>
          if (0 <? length refs)%nat then
            let newRefs := refs ++ [id] in
            (with_subsRefsMap (<[triggerName := newRefs]> (subsRefsMap this2)) this2, [],
             Normal (inl id))
          else pending
      | Inherited (Method (S _)) => (this2, [], Throw TypeError)
      | Inherited (Method 0) | Inherited Prototype | Undefined => pending
      end
  end.

(** The callback of lines 100-110: it rejects, or it spreads
    [this.subsRefsMap[triggerName] || []], which throws a TypeError out of
    the callback when the property is inherited, and resolves. *)
Definition subscribe_callback (p : PendingSubscribe) (err : option exn)
    (this : RedisPubSub) : RedisPubSub * settlement :=
  match err with
  | Some e => (this, Rejected e)
  | None =>
      let triggerName := pending_triggerName p in
      let listed (refs : list Z) :=
        (with_subsRefsMap (<[triggerName := refs ++ [pending_id p]]> (subsRefsMap this)) this,
         Resolved (pending_id p)) in
      match get (subsRefsMap this) triggerName with
      | Own refs => listed refs
      | Undefined => listed []
      | Inherited _ => (this, Unsettled TypeError)
      end
  end.

(** [subscribe] with a Redis client that answers (with [err]) before
    anything else runs. *)
Definition subscribe (this : RedisPubSub) (trigger : string) (onMessage : Function)
    (options : Options) (err : option exn) : RedisPubSub * list event * subscribe_result :=
  match subscribe_call this trigger onMessage options with
  | (this1, evs, Throw e) => (this1, evs, Throws e)
  | (this1, evs, Normal (inl id)) => (this1, evs, Promise (Resolved id))
  | (this1, evs, Normal (inr p)) =>
      let '(this2, s) := subscribe_callback p err this1 in (this2, evs, Promise s)
  end.

(** [unsubscribe], lines 115-136.  An inherited method whose [length] is 1
    passes line 121; any other inherited value has no [indexOf] (line
    128). *)
Definition unsubscribe (this : RedisPubSub) (subId : Z)
    : RedisPubSub * list event * completion unit :=
  let triggerName : option string :=
    match subscriptionMap this !! subId with
    | Some (t, _) => Some t
    | None => None
    end in
  let last_one :=
    (with_subscriptionMap (delete subId (subscriptionMap this))
       (with_subsRefsMap (delete (property_key triggerName) (subsRefsMap this)) this),
     [EvUnsubscribe triggerName; EvPUnsubscribe triggerName], Normal tt) in
  match get (subsRefsMap this) (property_key triggerName) with
  | Undefined => (this, [], Throw (NoSubscription subId))
  | Own refs =>
      if (length refs =? 1)%nat then last_one
      else
        let index := indexOf refs subId in
        let newRefs :=
          if (index =? -1)%Z then refs
          else slice_to refs index ++ slice_from refs (index + 1) in
        (with_subscriptionMap (delete subId (subscriptionMap this))
           (with_subsRefsMap (<[property_key triggerName := newRefs]> (subsRefsMap this)) this),
         [], Normal tt)
  | Inherited (Method 1) => last_one
  | Inherited _ => (this, [], Throw TypeError)
  end.

(** Line 165. *)
Definition decode (this : RedisPubSub) (message : string) (h : list json)
    : list json * completion jsval :=
  match deserializer this with
  | Some deser => deser message h
  | None => JSON_parse message (reviver this) h
  end.

(** Lines 163-168. *)
Definition parse_message (this : RedisPubSub) (message : string) (h : list json)
    : list json * jsval :=
  match decode this message h with
  | (h1, Normal v) => (h1, v)
  | (h1, Throw _) => (h1, VString message)
  end.

(** The calls that a function makes on the registry while it runs: a call
    that throws ends the function. *)
Definition run_call (this : RedisPubSub) (c : call)
    : RedisPubSub * list event * completion unit :=
  match c with
  | CallSubscribe trigger f options =>
      match subscribe_call this trigger f options with
      | (this1, evs, Throw e) => (this1, evs, Throw e)
      | (this1, evs, Normal _) => (this1, evs, Normal tt)
      end
  | CallUnsubscribe subId => unsubscribe this subId
  end.

Fixpoint run_calls (this : RedisPubSub) (cs : list call)
    : RedisPubSub * list event * completion unit :=
  match cs with
  | [] => (this, [], Normal tt)
  | c :: cs' =>
      match run_call this c with
      | (this1, evs, Throw e) => (this1, evs, Throw e)
      | (this1, evs, Normal _) =>
          let '(this2, evs', r) := run_calls this1 cs' in (this2, evs ++ evs', r)
      end
  end.

(** Line 172, [listener(parsedMessage)]. *)
Definition invoke (this : RedisPubSub) (f : Function) (v : jsval) (h : list json)
    : RedisPubSub * list json * list event * completion unit :=
  let '(h1, r) := fn_call (listener f) v h in
  let '(this1, evs, rc) := run_calls this (calls f v h) in
  (this1, h1, EvCall (listener f) v :: evs,
   match rc with
   | Throw e => Throw e
   | Normal _ => r
   end).

(** Lines 170-173: the loop runs over the array read at line 158, and
    reads [this.subscriptionMap] at each turn. *)
Fixpoint fan_out (this : RedisPubSub) (parsedMessage : jsval) (subscribers : list Z)
    (h : list json) : RedisPubSub * list json * list event * completion unit :=
  match subscribers with
  | [] => (this, h, [], Normal tt)
  | subId :: rest =>
      match subscriptionMap this !! subId with
      | None => (this, h, [], Throw TypeError)
      | Some (_, f) =>
          match invoke this f parsedMessage h with
          | (this1, h1, evs, Throw e) => (this1, h1, evs, Throw e)
          | (this1, h1, evs, Normal _) =>
              let '(this2, h2, evs', r) := fan_out this1 parsedMessage rest h1 in
              (this2, h2, evs ++ evs', r)
          end
      end
  end.

(** [onMessage], lines 157-174.  An inherited method whose [length] is not
    0 passes line 161 and is not iterable at line 170. *)
Definition onMessage (this : RedisPubSub) (pattern : option string) (channel : string)
    (message : string) (h : list json)
    : RedisPubSub * list json * list event * completion unit :=
  match get (subsRefsMap this) (dispatch_key pattern channel) with
  | Undefined | Inherited Prototype | Inherited (Method 0) | Own [] => (this, h, [], Normal tt)
  | Inherited (Method (S _)) =>
      let '(h1, _) := parse_message this message h in
      (this, h1, [EvDecode message], Throw TypeError)
  | Own subscribers =>
      let '(h1, parsedMessage) := parse_message this message h in
      let '(this1, h2, evs, r) := fan_out this parsedMessage subscribers h1 in
      (this1, h2, EvDecode message :: evs, r)
  end.

(** ** Notions used to state the properties *)

Definition delivery (this : RedisPubSub) (v : jsval) (subId : Z) (ev : event) : Prop :=
  ∃ t f, subscriptionMap this !! subId = Some (t, f) ∧ ev = EvCall (listener f) v.

(** A function that makes no call on the registry when it is given [v]. *)
Definition quiet (f : Function) (v : jsval) : Prop :=
  ∀ h, calls f v h = [].


Definition refs_have_records (this : RedisPubSub) : Prop :=
  ∀ k refs subId,
    subsRefsMap this !! k = Some refs → subId ∈ refs →
    ∃ f, subscriptionMap this !! subId = Some (k, f).

Definition records_have_refs (this : RedisPubSub) : Prop :=
  ∀ subId k f,
    subscriptionMap this !! subId = Some (k, f) →
    ∃ refs, subsRefsMap this !! k = Some refs ∧ subId ∈ refs.

Definition refs_distinct (this : RedisPubSub) : Prop :=
  ∀ k refs, subsRefsMap this !! k = Some refs → NoDup refs ∧ refs ≠ [].

Definition ids_issued (this : RedisPubSub) : Prop :=
  ∀ subId r, subscriptionMap this !! subId = Some r →
    (subId < currentSubscriptionId this)%Z.

(** No list is an own property under a name of [Object.prototype]. *)
Definition lists_shadow_nothing (this : RedisPubSub) : Prop :=
  ∀ k refs, subsRefsMap this !! k = Some refs → Object_prototype k = None.

(** The counter is an integer that a double holds exactly and that
    [increment] has not yet stopped at. *)
Definition counter_in_range (this : RedisPubSub) : Prop :=
  (0 ≤ currentSubscriptionId this ≤ 2 ^ 53)%Z.

Definition consistent (this : RedisPubSub) : Prop :=
  refs_have_records this ∧ refs_distinct this ∧ ids_issued this.

(** The name under which [unsubscribe] looks for the list of an id. *)
Definition channel_of (this : RedisPubSub) (subId : Z) : string :=
  property_key (match subscriptionMap this !! subId with
                | Some (t, _) => Some t
                | None => None
                end).

(** The calls a client of the registry makes, each run to its end before
    the next. *)
Inductive operation :=
| OpSubscribe (trigger : string) (onMessage : Function) (options : Options) (err : option exn)
| OpUnsubscribe (subId : Z).

Definition run_operation (this : RedisPubSub) (op : operation) : RedisPubSub :=
  match op with
  | OpSubscribe trigger f options err => (subscribe this trigger f options err).1.1
  | OpUnsubscribe subId => (unsubscribe this subId).1.1
  end.

Definition run_operations (this : RedisPubSub) (ops : list operation) : RedisPubSub :=
  fold_left run_operation ops this.

(** The calls of [subscribe] whose trigger transform returns: those that
    reach line 88. *)
Definition subscribe_calls (this : RedisPubSub) (ops : list operation) : nat :=
  length (List.filter
            (λ op, match op with
                   | OpSubscribe trigger _ options _ =>
                       match triggerTransform this trigger options with
                       | Normal _ => true
                       | Throw _ => false
                       end
                   | OpUnsubscribe _ => false
                   end) ops).

(** A sequence of calls in which every subscribe is for a trigger name
    that [Object.prototype] does not define and is accepted by the Redis
    client, and every [unsubscribe] is given an id that has a record when it
    is called. *)
Fixpoint orderly (this : RedisPubSub) (ops : list operation) : Prop :=
  match ops with
  | [] => True
  | op :: ops' =>
      match op with
      | OpSubscribe trigger _ options err =>
          err = None
          ∧ ∃ t, triggerTransform this trigger options = Normal t ∧ Object_prototype t = None
      | OpUnsubscribe subId => is_Some (subscriptionMap this !! subId)
      end
      ∧ orderly (run_operation this op) ops'
  end.

End RedisPubSub.

End Js.

(** ** The registries of the first part, as registries of [Js] *)

Section Embedding.
Context `{Runtime}.

(** A listener as a function that makes no call on the registry. *)
Definition fn (l : Listener) : Js.Function := Js.Fn l (λ _ _, []).

(** A registry whose trigger transform returns and whose listeners make no
    call on the registry. *)
Definition embed (this : RedisPubSub) : Js.RedisPubSub :=
  {| Js.triggerTransform := λ trigger options, Normal (triggerTransform this trigger options);
     Js.reviver := reviver this;
     Js.serializer := serializer this;
     Js.deserializer := deserializer this;
     Js.subscriptionMap := (λ r, (r.1, fn r.2)) <$> subscriptionMap this;
     Js.subsRefsMap := subsRefsMap this;
     Js.currentSubscriptionId := currentSubscriptionId this |}.

(** How [Js.subscribe] ends when [subscribe] ends with [r]. *)
Definition settled (r : completion Z) : Js.subscribe_result :=
  match r with
  | Normal id => Js.Promise (Js.Resolved id)
  | Throw e => Js.Promise (Js.Rejected e)
  end.

End Embedding.

(** ** Registries of [Js] used in the examples *)

(** The options of [new RedisPubSub({publisher, subscriber})]. *)
Definition js_options : Js.PubSubRedisOptions :=
  {| Js.opt_triggerTransform := None;
     Js.opt_subscriber := true; Js.opt_publisher := true;
     Js.opt_reviver := None; Js.opt_serializer := None; Js.opt_deserializer := None |}.

Definition js_fresh_registry : Js.RedisPubSub :=
  {| Js.triggerTransform := λ trigger _, Normal trigger; Js.reviver := None;
     Js.serializer := None; Js.deserializer := None;
     Js.subscriptionMap := ∅; Js.subsRefsMap := ∅; Js.currentSubscriptionId := 0 |}.





(** A registry whose counter has reached 2^53. *)
Definition saturated_registry : Js.RedisPubSub :=
  Js.with_currentSubscriptionId (2 ^ 53) js_fresh_registry.

(** A registry whose trigger transform throws on the empty trigger. *)
Definition strict_registry : Js.RedisPubSub :=
  {| Js.triggerTransform :=
       λ trigger _, if String.eqb trigger "" then Throw (Thrown (VString "no trigger"))
                    else Normal trigger;
     Js.reviver := None; Js.serializer := None; Js.deserializer := None;
     Js.subscriptionMap := ∅; Js.subsRefsMap := ∅; Js.currentSubscriptionId := 0 |}.

(** Calls of a client: a refused subscribe, two accepted ones, a subscribe
    to a name of [Object.prototype], and two calls of [unsubscribe], the
    second with an id that was never handed out. *)
Definition js_mixed_calls : list Js.operation :=
  [Js.OpSubscribe "chat" (fn (listener_ok "L1")) ∅ refused;
   Js.OpSubscribe "chat" (fn (listener_ok "L2")) ∅ None;
   Js.OpSubscribe "news" (fn (listener_ok "L3")) ∅ None;
   Js.OpSubscribe "constructor" (fn (listener_ok "L4")) ∅ None;
   Js.OpUnsubscribe 1;
   Js.OpUnsubscribe 7].

(** Calls of a client that are all accepted. *)
Definition js_orderly_calls : list Js.operation :=
  [Js.OpSubscribe "orders" (fn (listener_ok "L1")) ∅ None;
   Js.OpSubscribe "orders" (fn (listener_copies "L2")) ∅ None;
   Js.OpUnsubscribe 0].

(** One subscription, id 0. *)
Definition js_chat_registry : Js.RedisPubSub :=
  Js.run_operations js_fresh_registry
    [Js.OpSubscribe "chat.room1" (fn (listener_ok "L")) ∅ None].

(** * Properties *)

(** ** The round trip of the runtime's JSON object *)

Module JSON_facts.
Import JSON.

Lemma append_nil (b : string) : "" +:+ b = b.
Proof. reflexivity. Qed.

Lemma append_cons c (a b : string) : String c a +:+ b = String c (a +:+ b).
Proof. reflexivity. Qed.

Lemma append_assoc (a b c : string) : (a +:+ b) +:+ c = a +:+ (b +:+ c).
Proof.
  induction a as [|x a IH]; [done|].
  by rewrite !append_cons, IH.
Qed.

Lemma length_append (a b : string) :
  String.length (a +:+ b) = String.length a + String.length b.
Proof.
  induction a as [|x a IH]; [done|].
  rewrite append_cons. simpl. by rewrite IH.
Qed.

(** *** Strings *)

Lemma parse_escape_char c s :
  parse_string_body (escape_char c +:+ s) =
    match parse_string_body s with
    | Some (body, r) => Some (String c body, r)
    | None => None
    end.
Proof. destruct c as [[] [] [] [] [] [] [] []]; reflexivity. Qed.

Lemma parse_string_escape s rest :
  parse_string_body (escape s +:+ String dquote rest) = Some (s, rest).
Proof.
  induction s as [|c s IH]; [done|].
  change (escape (String c s)) with (escape_char c +:+ escape s).
  by rewrite append_assoc, parse_escape_char, IH.
Qed.

(** *** Numbers *)

Lemma terminated_cases rest :
  terminated rest = true →
  rest = "" ∨ ∃ c r, rest = String c r ∧ (c = "," ∨ c = "]" ∨ c = "}")%char.
Proof.
  destruct rest as [|c r]; [by left|]. simpl. intros Hc. right. exists c, r.
  split; [done|].
  apply orb_true_iff in Hc as [Hc | Hc]; [apply orb_true_iff in Hc as [Hc | Hc]|];
    apply Ascii.eqb_eq in Hc; auto.
Qed.

Lemma read_uint_terminated rest :
  terminated rest = true → read_uint rest = (Nil, rest).
Proof.
  intros [-> | (c & r & -> & [-> | [-> | ->]])]%terminated_cases; reflexivity.
Qed.

Lemma read_uint_digits d rest :
  terminated rest = true →
  read_uint (NilEmpty.string_of_uint d +:+ rest) = (d, rest).
Proof.
  intros Hrest.
  induction d; simpl NilEmpty.string_of_uint;
    rewrite ?append_nil, ?append_cons; simpl; rewrite ?IHd; try done.
  by apply read_uint_terminated.
Qed.

Lemma nzhead_not_D0 d d' : nzhead d ≠ D0 d'.
Proof. induction d; simpl; congruence. Qed.

Lemma to_uint_no_leading_zero p d : Pos.to_uint p ≠ D0 d.
Proof.
  intros Hp.
  pose proof (DecimalPos.Unsigned.to_of (Pos.to_uint p)) as Hnorm.
  rewrite DecimalPos.Unsigned.of_to in Hnorm. simpl in Hnorm.
  rewrite Hp in Hnorm. unfold unorm in Hnorm. simpl in Hnorm.
  destruct (nzhead d) eqn:Hd; try congruence.
  - injection Hnorm as Hnil. subst d. by apply (DecimalPos.Unsigned.to_uint_nonzero p).
  - exact (nzhead_not_D0 _ _ Hd).
Qed.

Lemma parse_magnitude_pos p rest :
  terminated rest = true →
  parse_magnitude (NilEmpty.string_of_uint (Pos.to_uint p) +:+ rest) = Some (N.pos p, rest)
  ∧ ∃ c s, NilEmpty.string_of_uint (Pos.to_uint p) = String c s
           ∧ digit_of c ≠ None.
Proof.
  intros Hrest.
  pose proof (DecimalPos.Unsigned.of_to p) as Hof.
  pose proof (to_uint_no_leading_zero p) as Hlead.
  pose proof (DecimalPos.Unsigned.to_uint_nonnil p) as Hnil.
  destruct (Pos.to_uint p) as [|d|d|d|d|d|d|d|d|d|d] eqn:Hp; try done;
    try (by exfalso; eapply Hlead).
  all: split; [|by eexists _, _].
  all: simpl NilEmpty.string_of_uint; rewrite append_cons.
  all: unfold parse_magnitude; simpl read_uint at 1;
    rewrite (read_uint_digits d rest Hrest).
  all: unfold N.of_uint; rewrite Hof.
  all: apply terminated_cases in Hrest as [-> | (c & r & -> & [-> | [-> | ->]])];
    reflexivity.
Qed.

Lemma parse_number_to_string n rest :
  terminated rest = true →
  parse_number (number_to_string n +:+ rest) = Some (n, rest).
Proof.
  intros Hrest. destruct n as [|p|p]; unfold number_to_string; simpl Z.to_int.
  - apply terminated_cases in Hrest as [-> | (c & r & -> & [-> | [-> | ->]])];
      reflexivity.
  - destruct (parse_magnitude_pos p rest Hrest) as (Hmag & c & s & Hs & Hc).
    simpl NilEmpty.string_of_int. unfold parse_number.
    rewrite Hmag. rewrite Hs, append_cons.
    destruct (Ascii.eqb_spec c "-") as [->|Hne]; [done|].
    destruct c as [[] [] [] [] [] [] [] []]; try done.
  - destruct (parse_magnitude_pos p rest Hrest) as (Hmag & _).
    simpl NilEmpty.string_of_int. rewrite append_cons.
    unfold parse_number. by rewrite Hmag.
Qed.

(** The first character of a printed number. *)
Lemma number_to_string_head n :
  ∃ c s, number_to_string n = String c s ∧ (c = "-"%char ∨ digit_of c ≠ None).
Proof.
  destruct n as [|p|p]; unfold number_to_string; simpl.
  - by eexists _, _; split; [|right].
  - destruct (parse_magnitude_pos p "" eq_refl) as (_ & c & s & Hs & Hc).
    exists c, s. split; [done | by right].
  - eexists _, _. split; [done | by left].
Qed.

(** *** Values *)

Lemma length_cons c (s : string) : String.length (String c s) = S (String.length s).
Proof. reflexivity. Qed.

Lemma append_nil_r (a : string) : a +:+ "" = a.
Proof. induction a as [|x a IH]; [done|]. by rewrite append_cons, IH. Qed.

Lemma skip_ws_head c r : is_ws c = false → skip_ws (String c r) = String c r.
Proof. intros Hc. simpl. by rewrite Hc. Qed.

Lemma next_is_hit c r : is_ws c = false → next_is c (String c r) = Some r.
Proof. intros Hc. unfold next_is. by rewrite skip_ws_head, Ascii.eqb_refl. Qed.

Lemma next_is_miss c c' r :
  is_ws c' = false → Ascii.eqb c' c = false → next_is c (String c' r) = None.
Proof. intros Hws Hc. unfold next_is. by rewrite skip_ws_head, Hc. Qed.

Lemma parse_value_S fuel s :
  parse_value (S fuel) s =
    match skip_ws s with
    | EmptyString => None
    | String c rest =>
        if Ascii.eqb c "n" then expect "ull" JNull rest
        else if Ascii.eqb c "t" then expect "rue" (JBool true) rest
        else if Ascii.eqb c "f" then expect "alse" (JBool false) rest
        else if Ascii.eqb c dquote then
          match parse_string_body rest with
          | Some (str, r) => Some (JString str, r)
          | None => None
          end
        else if Ascii.eqb c "[" then
          match next_is "]" rest with
          | Some r => Some (JArray [], r)
          | None =>
              match parse_elements fuel rest with
              | Some (xs, r) => Some (JArray xs, r)
              | None => None
              end
          end
        else if Ascii.eqb c "{" then
          match next_is "}" rest with
          | Some r => Some (JObject [], r)
          | None =>
              match parse_members fuel rest [] with
              | Some (fields, r) => Some (JObject fields, r)
              | None => None
              end
          end
        else
          match parse_number (String c rest) with
          | Some (n, r) => Some (JNumber n, r)
          | None => None
          end
    end.
Proof. reflexivity. Qed.

Lemma parse_elements_S fuel s :
  parse_elements (S fuel) s =
    match parse_value fuel s with
    | None => None
    | Some (x, r) =>
        match next_is "]" r with
        | Some r' => Some ([x], r')
        | None =>
            match next_is "," r with
            | Some r' =>
                match parse_elements fuel r' with
                | Some (xs, r'') => Some (x :: xs, r'')
                | None => None
                end
            | None => None
            end
        end
    end.
Proof. reflexivity. Qed.

Lemma parse_members_S fuel s acc :
  parse_members (S fuel) s acc =
    match next_is dquote s with
    | None => None
    | Some rest =>
        match parse_string_body rest with
        | None => None
        | Some (k, r) =>
            match next_is ":" r with
            | None => None
            | Some r1 =>
                match parse_value fuel r1 with
                | None => None
                | Some (v, r2) =>
                    match next_is "}" r2 with
                    | Some r3 => Some (set_member k v acc, r3)
                    | None =>
                        match next_is "," r2 with
                        | Some r3 => parse_members fuel r3 (set_member k v acc)
                        | None => None
                        end
                    end
                end
            end
        end
    end.
Proof. reflexivity. Qed.

Lemma stringify_head j :
  ∃ c r, stringify j = String c r ∧ opens_value c = true.
Proof.
  destruct j as [|[]|n|s|xs|fields]; try by eexists _, _.
  destruct (number_to_string_head n) as (c & s & Hs & Hc).
  exists c, s. split; [done|].
  destruct Hc as [-> | Hc]; [done|].
  destruct c as [[] [] [] [] [] [] [] []]; done.
Qed.

Lemma stringify_length j : 1 ≤ String.length (stringify j).
Proof. destruct (stringify_head j) as (c & r & -> & _). simpl. lia. Qed.

Lemma parse_value_number fuel n rest :
  terminated rest = true →
  parse_value (S fuel) (number_to_string n +:+ rest) = Some (JNumber n, rest).
Proof.
  intros Hrest. rewrite parse_value_S.
  pose proof (parse_number_to_string n rest Hrest) as Hnum.
  destruct (number_to_string_head n) as (c & s & Hs & Hc).
  rewrite Hs, append_cons in Hnum |- *.
  destruct Hc as [-> | Hc].
  - rewrite skip_ws_head by done. simpl Ascii.eqb. cbv iota. by rewrite Hnum.
  - destruct c as [[] [] [] [] [] [] [] []]; try done;
      (rewrite skip_ws_head by done; simpl Ascii.eqb; cbv iota; by rewrite Hnum).
Qed.

Lemma opens_value_next_is c c' r :
  opens_value c = true → (c' = "]" ∨ c' = "}")%char →
  next_is c' (String c r) = None.
Proof.
  unfold opens_value. intros Hc Hc'.
  apply andb_true_iff in Hc as [Hc Hbrace]. apply andb_true_iff in Hc as [Hws Hbracket].
  apply negb_true_iff in Hws, Hbracket, Hbrace.
  apply next_is_miss; [done|]. by destruct Hc' as [-> | ->].
Qed.

Lemma parse_elements_stringify xs rest fuel :
  xs ≠ [] → Forall reads_back xs →
  String.length (stringify_elements xs) ≤ fuel →
  parse_elements fuel (stringify_elements xs +:+ rest) = Some (xs, rest).
Proof.
  induction xs as [|x xs IH] in fuel |- *; [done|].
  intros _ Hall Hfuel. apply Forall_cons in Hall as [Hx Hxs].
  pose proof (stringify_length x) as Hlen.
  change (stringify_elements (x :: xs)) with
    (stringify x +:+ match xs with
                     | [] => "]"
                     | _ :: _ => "," +:+ stringify_elements xs
                     end) in *.
  rewrite length_append in Hfuel. rewrite append_assoc.
  destruct fuel as [|fuel]; [lia|]. rewrite parse_elements_S.
  destruct xs as [|y ys].
  - rewrite Hx; [|done | simpl in Hfuel; lia].
    by rewrite append_cons, append_nil, next_is_hit.
  - rewrite !append_cons, append_nil in *. rewrite length_cons in Hfuel.
    rewrite Hx; [|done | lia].
    rewrite next_is_miss, next_is_hit by done.
    rewrite IH; [done | done | done | lia].
Qed.

Lemma quote_append k rest :
  quote k +:+ rest = String dquote (escape k +:+ String dquote rest).
Proof. unfold quote. by rewrite append_cons, append_assoc, append_cons, append_nil. Qed.

Lemma quote_length k : 2 ≤ String.length (quote k).
Proof. unfold quote. simpl. rewrite length_append. simpl. lia. Qed.

Lemma parse_members_stringify fields rest fuel acc :
  fields ≠ [] → Forall (λ kv, reads_back kv.2) fields →
  String.length (stringify_members fields) ≤ fuel →
  parse_members fuel (stringify_members fields +:+ rest) acc
    = Some (add_members fields acc, rest).
Proof.
  induction fields as [|[k v] fields IH] in fuel, acc |- *; [done|].
  intros _ Hall Hfuel. apply Forall_cons in Hall as [Hv Hfields]. simpl in Hv.
  pose proof (stringify_length v) as Hlen.
  pose proof (quote_length k) as Hquote.
  change (stringify_members ((k, v) :: fields)) with
    (quote k +:+ ":" +:+ stringify v +:+
     match fields with
     | [] => "}"
     | _ :: _ => "," +:+ stringify_members fields
     end) in *.
  rewrite !length_append in Hfuel.
  rewrite append_assoc, quote_append, !append_assoc, !append_cons, !append_nil.
  destruct fuel as [|fuel]; [lia|]. rewrite parse_members_S.
  rewrite next_is_hit by done. rewrite parse_string_escape.
  rewrite next_is_hit by done.
  destruct fields as [|kv fields'].
  - rewrite Hv; [|done | simpl in Hfuel; lia].
    by rewrite append_cons, append_nil, next_is_hit.
  - rewrite !append_cons, append_nil in *. rewrite !length_cons in Hfuel.
    rewrite Hv; [|done | lia].
    rewrite next_is_miss, next_is_hit by done.
    rewrite IH; [done | done | done | lia].
Qed.

Lemma set_member_new k v acc :
  k ∉ acc.*1 → set_member k v acc = acc ++ [(k, v)].
Proof.
  induction acc as [|[k' v'] acc IH]; [done|]. simpl.
  rewrite not_elem_of_cons. intros [Hne Hnot].
  destruct (String.eqb_spec k' k); [congruence|]. by rewrite IH.
Qed.

Lemma add_members_distinct fields acc :
  NoDup (acc.*1 ++ fields.*1) → add_members fields acc = acc ++ fields.
Proof.
  unfold add_members.
  induction fields as [|[k v] fields IH] in acc |- *; simpl.
  - intros _. by rewrite app_nil_r.
  - intros Hnd. rewrite set_member_new.
    + rewrite IH; [by rewrite <- app_assoc|].
      by rewrite fmap_app, <- app_assoc.
    + apply NoDup_app in Hnd as (_ & Hdisj & _).
      intros Hin. apply (Hdisj k Hin). by left.
Qed.

Lemma next_is_value c' j s :
  (c' = "]" ∨ c' = "}")%char → next_is c' (stringify j +:+ s) = None.
Proof.
  intros Hc'. destruct (stringify_head j) as (c & r & -> & Hc).
  rewrite append_cons. by apply opens_value_next_is.
Qed.

Lemma next_is_elements xs rest :
  xs ≠ [] → next_is "]" (stringify_elements xs +:+ rest) = None.
Proof.
  destruct xs as [|x xs]; [done|]. intros _.
  change (stringify_elements (x :: xs)) with
    (stringify x +:+ match xs with
                     | [] => "]"
                     | _ :: _ => "," +:+ stringify_elements xs
                     end).
  rewrite append_assoc. apply next_is_value. by left.
Qed.

Lemma next_is_members fields rest :
  fields ≠ [] → next_is "}" (stringify_members fields +:+ rest) = None.
Proof.
  destruct fields as [|[k v] fields]; [done|]. intros _.
  change (stringify_members ((k, v) :: fields)) with
    (quote k +:+ ":" +:+ stringify v +:+
     match fields with
     | [] => "}"
     | _ :: _ => "," +:+ stringify_members fields
     end).
  rewrite append_assoc, quote_append. by apply next_is_miss.
Qed.

Lemma stringify_reads_back j : well_formed j → reads_back j.
Proof.
  induction j as [|b|n|s|xs IH|fields IH] using json_nested_ind;
    intros Hwf rest fuel Hrest Hfuel.
  - destruct fuel; [simpl in Hfuel; lia | reflexivity].
  - destruct fuel; [destruct b; simpl in Hfuel; lia | by destruct b].
  - pose proof (stringify_length (JNumber n)).
    destruct fuel; [lia|]. by apply parse_value_number.
  - destruct fuel; [simpl in Hfuel; lia|].
    change (stringify (JString s)) with (quote s).
    rewrite quote_append, parse_value_S, skip_ws_head by done.
    simpl Ascii.eqb. cbv iota. by rewrite parse_string_escape.
  - inversion Hwf as [| | | |xs' Hall|]; subst.
    assert (Hback : Forall reads_back xs).
    { clear -IH Hall. induction IH as [|x xs Hx _ IHxs]; [done|].
      apply Forall_cons in Hall as [Hwx Hwxs]. constructor; auto. }
    change (stringify (JArray xs)) with ("[" +:+ stringify_elements xs) in *.
    rewrite length_append in Hfuel. simpl in Hfuel.
    destruct fuel; [lia|].
    rewrite append_assoc. rewrite append_cons, append_nil, parse_value_S.
    rewrite skip_ws_head by done.
    simpl Ascii.eqb. cbv iota.
    destruct xs as [|x xs];
      [change (stringify_elements []) with "]";
       by rewrite append_cons, append_nil, next_is_hit|].
    rewrite next_is_elements by done.
    rewrite parse_elements_stringify; [done | done | done | lia].
  - inversion Hwf as [| | | | |fields' Hnd Hall]; subst.
    assert (Hback : Forall (λ kv, reads_back kv.2) fields).
    { clear -IH Hall. induction IH as [|kv fields Hkv _ IHfields]; [done|].
      apply Forall_cons in Hall as [Hwkv Hwfields]. constructor; auto. }
    change (stringify (JObject fields)) with ("{" +:+ stringify_members fields) in *.
    rewrite length_append in Hfuel. simpl in Hfuel.
    destruct fuel; [lia|].
    rewrite append_assoc. rewrite append_cons, append_nil, parse_value_S.
    rewrite skip_ws_head by done.
    simpl Ascii.eqb. cbv iota.
    destruct fields as [|[k v] fields];
      [change (stringify_members []) with "}";
       by rewrite append_cons, append_nil, next_is_hit|].
    rewrite next_is_members by done.
    rewrite parse_members_stringify; [|done | done | lia].
    by rewrite add_members_distinct.
Qed.

(** [JSON.parse (JSON.stringify j)] is [j]. *)
Lemma parse_stringify j : well_formed j → parse (stringify j) = Some j.
Proof.
  intros Hwf. unfold parse.
  rewrite <- (append_nil_r (stringify j)) at 2.
  rewrite (stringify_reads_back j Hwf); [done | done | lia].
Qed.

End JSON_facts.


Section Registry_facts.
Context `{Runtime}.

Implicit Types (this : RedisPubSub) (subId : Z) (h : heap).

(** ** unsubscribe *)

(** An id without a record is refused when nothing is subscribed under the
    trigger name null. *)
Lemma unsubscribe_unknown this subId :
  subscriptionMap this !! subId = None →
  subsRefsMap this !! "null" = None →
  unsubscribe this subId = (this, [], Throw (NoSubscription subId)).
Proof.
  intros Hrec Hnull. unfold unsubscribe.
  rewrite Hrec. simpl. by rewrite Hnull.
Qed.

(** C5. Unsubscribing the only id of a channel sends one unsubscribe and
    one punsubscribe for the channel, deletes the list of the channel and
    the record of the id, and a message dispatched to the channel afterwards
    reaches no listener. *)
Theorem unsubscribe_last_tears_down this subId t l :
  subscriptionMap this !! subId = Some (t, l) →
  subsRefsMap this !! t = Some [subId] →
  ∃ this',
    unsubscribe this subId
      = (this', [EvUnsubscribe (Some t); EvPUnsubscribe (Some t)], Normal tt)
    ∧ subsRefsMap this' = delete t (subsRefsMap this)
    ∧ subscriptionMap this' = delete subId (subscriptionMap this)
    ∧ subsRefsMap this' !! t = None
    ∧ subscriptionMap this' !! subId = None
    ∧ ∀ pattern channel message h,
        dispatch_key pattern channel = t →
        onMessage this' pattern channel message h = (h, [], Normal tt).
Proof.
  intros Hrec Hrefs. unfold unsubscribe.
  rewrite Hrec. simpl. rewrite Hrefs. simpl.
  eexists. split; [reflexivity|]. simpl.
  repeat split; try apply lookup_delete_eq.
  intros pattern channel message h Hkey. unfold onMessage. simpl.
  by rewrite Hkey, lookup_delete_eq.
Qed.

(** ** subscribe *)

(** What a refused subscribe leaves behind: the counter has advanced and
    the record of the new id is in [subscriptionMap]; [subsRefsMap] is as it
    was. *)
Lemma subscribe_rejected this trigger l options e :
  let t := triggerTransform this trigger options in
  let id := currentSubscriptionId this in
  (subsRefsMap this !! t = None ∨ subsRefsMap this !! t = Some []) →
  ∃ ev,
    subscribe this trigger l options (Some e)
      = (with_subscriptionMap (<[id := (t, l)]> (subscriptionMap this))
           (with_currentSubscriptionId (id + 1) this),
         [ev], Throw e)
    ∧ (ev = EvSubscribe t ∨ ev = EvPSubscribe t).
Proof.
  intros t id Hrefs. unfold subscribe, subscribe_call. simpl. fold t.
  destruct Hrefs as [-> | ->]; simpl;
    (eexists; split; [reflexivity|]);
    destruct (truthy _); auto.
Qed.

(** ** onMessage *)

Lemma dispatch_key_pattern p channel :
  p ≠ "" → dispatch_key (Some p) channel = p.
Proof.
  intros Hp. unfold dispatch_key.
  destruct (String.eqb_spec p ""); congruence.
Qed.

(** *** The loop over the subscribers *)

Lemma fan_out_app this v pre post h :
  fan_out this v (pre ++ post) h =
    match fan_out this v pre h with
    | (h1, evs, Normal _) =>
        let '(h2, evs', r) := fan_out this v post h1 in (h2, evs ++ evs', r)
    | (h1, evs, Throw e) => (h1, evs, Throw e)
    end.
Proof.
  induction pre as [|subId pre IH] in h |- *; simpl.
  - by destruct (fan_out this v post h) as [[h2 evs'] r].
  - destruct (subscriptionMap this !! subId) as [[t l]|]; [|done].
    destruct (fn_call l v h) as [h1 [[]|e]]; [|done].
    rewrite IH.
    destruct (fan_out this v pre h1) as [[h2 evs] [[]|e]]; [|done].
    by destruct (fan_out this v post h2) as [[h3 evs'] r].
Qed.

(** The calls of the loop are the calls of the listeners of a prefix of
    the subscribers, in order, each with the same value; of all of them
    when the loop ends normally. *)
Lemma fan_out_deliveries this v subscribers h h' evs r :
  fan_out this v subscribers h = (h', evs, r) →
  ∃ invoked,
    invoked `prefix_of` subscribers
    ∧ Forall2 (delivery this v) invoked evs
    ∧ (r = Normal tt → invoked = subscribers).
Proof.
  induction subscribers as [|subId rest IH] in h, h', evs, r |- *; simpl.
  - intros [= <- <- <-]. exists []. by repeat split; try constructor.
  - destruct (subscriptionMap this !! subId) as [[t l]|] eqn:Hrec.
    + destruct (fn_call l v h) as [h1 [[]|e]].
      * destruct (fan_out this v rest h1) as [[h2 evs'] r'] eqn:Hrest.
        intros [= <- <- <-].
        destruct (IH _ _ _ _ Hrest) as (invoked & Hpre & Hall & Hnormal).
        exists (subId :: invoked). split; [by apply prefix_cons|].
        split; [constructor; [by exists t, l | done]|].
        intros Hr. by rewrite Hnormal.
      * intros [= <- <- <-]. exists [subId].
        split; [apply prefix_cons, prefix_nil|].
        split; [repeat constructor; by exists t, l | done].
    + intros [= <- <- <-]. exists [].
      split; [apply prefix_nil|]. split; [constructor | done].
Qed.

(** The loop stops at the first listener that throws. *)
Lemma fan_out_throw this v pre subId post h h1 evs t l h2 e :
  fan_out this v pre h = (h1, evs, Normal tt) →
  subscriptionMap this !! subId = Some (t, l) →
  fn_call l v h1 = (h2, Throw e) →
  fan_out this v (pre ++ subId :: post) h = (h2, evs ++ [EvCall l v], Throw e).
Proof.
  intros Hpre Hrec Hthrow. rewrite fan_out_app, Hpre. simpl.
  by rewrite Hrec, Hthrow.
Qed.

Lemma onMessage_fan_out this pattern channel message h subscribers :
  subsRefsMap this !! dispatch_key pattern channel = Some subscribers →
  subscribers ≠ [] →
  onMessage this pattern channel message h =
    (let '(h1, parsedMessage) := parse_message this message h in
     let '(h2, evs, r) := fan_out this parsedMessage subscribers h1 in
     (h2, EvDecode message :: evs, r)).
Proof.
  intros Hrefs Hne. unfold onMessage. rewrite Hrefs.
  by destruct subscribers.
Qed.

(** C2, amended. At the first listener of the fan-out that throws, the
    listeners before it and the listener itself have been called with the
    decoded value, in the order of the list; what it threw is thrown by
    [onMessage], and no listener after it is called. *)
Theorem onMessage_stops_at_throwing_listener
    this pattern channel message h pre subId post h1 v h2 evs t l h3 e :
  subsRefsMap this !! dispatch_key pattern channel = Some (pre ++ subId :: post) →
  parse_message this message h = (h1, v) →
  fan_out this v pre h1 = (h2, evs, Normal tt) →
  subscriptionMap this !! subId = Some (t, l) →
  fn_call l v h2 = (h3, Throw e) →
  onMessage this pattern channel message h
    = (h3, EvDecode message :: evs ++ [EvCall l v], Throw e)
  ∧ Forall2 (delivery this v) (pre ++ [subId]) (evs ++ [EvCall l v]).
Proof.
  intros Hrefs Hparse Hpre Hrec Hthrow. split.
  - rewrite (onMessage_fan_out _ _ _ _ _ _ Hrefs); [|by destruct pre].
    rewrite Hparse. by rewrite (fan_out_throw _ _ _ _ _ _ _ _ _ _ _ _ Hpre Hrec Hthrow).
  - apply Forall2_app.
    + destruct (fan_out_deliveries _ _ _ _ _ _ _ Hpre) as (invoked & _ & Hdel & Hall).
      by rewrite <- Hall.
    + repeat constructor. by exists t, l.
Qed.

(** C10, amended. A message that reaches the fan-out is decoded once, and
    every call of a listener is given the value that this one decoding
    produced: the same reference when it is an object.  The listeners called
    are those of the ids of the list up to the first that throws (or has no
    record), and all of them when [onMessage] returns. *)
Theorem onMessage_decodes_once this pattern channel message h subscribers :
  subsRefsMap this !! dispatch_key pattern channel = Some subscribers →
  subscribers ≠ [] →
  ∃ h' calls r invoked,
    onMessage this pattern channel message h = (h', EvDecode message :: calls, r)
    ∧ decodings (EvDecode message :: calls) = 1
    ∧ invoked `prefix_of` subscribers
    ∧ Forall2 (delivery this (parse_message this message h).2) invoked calls
    ∧ (r = Normal tt → invoked = subscribers).
Proof.
  intros Hrefs Hne.
  rewrite (onMessage_fan_out _ _ _ _ _ _ Hrefs Hne).
  destruct (parse_message this message h) as [h1 v]. simpl.
  destruct (fan_out this v subscribers h1) as [[h2 evs] r] eqn:Hfan.
  destruct (fan_out_deliveries _ _ _ _ _ _ _ Hfan) as (invoked & Hpre & Hdel & Hnormal).
  exists h2, evs, r, invoked. repeat split; try done.
  unfold decodings. simpl. f_equal.
  clear -Hdel. induction Hdel as [|subId ev ? ? (t & l & _ & ->)]; [done|].
  simpl. done.
Qed.

End Registry_facts.

(** ** The two tables *)

Section Registry_invariant.
Context `{Runtime}.

Implicit Types (this : RedisPubSub) (subId : Z) (refs : list Z).

Lemma indexOf_from_spec x refs i :
  (0 ≤ i)%Z →
  (indexOf_from x refs i = (-1)%Z ∧ x ∉ refs)
  ∨ (∃ n, indexOf_from x refs i = (i + Z.of_nat n)%Z
          ∧ refs !! n = Some x ∧ x ∉ take n refs).
Proof.
  intros Hi.
  induction refs as [|y refs IH] in i, Hi |- *; simpl.
  - left. split; [done | apply not_elem_of_nil].
  - destruct (Z.eqb_spec y x) as [->|Hne].
    + right. exists 0. simpl. split; [lia|]. split; [done | apply not_elem_of_nil].
    + destruct (IH (i + 1)%Z) as [[Hidx Hnot] | (n & Hidx & Hlook & Hnot)]; [lia | |].
      * left. split; [done|]. rewrite elem_of_cons. by intros [->|].
      * right. exists (S n). simpl. split; [lia|]. split; [done|].
        rewrite elem_of_cons. by intros [->|].
Qed.

Lemma without_first_spec refs subId :
  ((subId ∉ refs) ∧ without_first refs subId = refs)
  ∨ (∃ n, refs !! n = Some subId ∧ (subId ∉ take n refs)
          ∧ without_first refs subId = take n refs ++ drop (S n) refs).
Proof.
  unfold without_first, indexOf.
  destruct (indexOf_from_spec subId refs 0) as [[Hidx Hnot] | (n & Hidx & Hlook & Hnot)]; [lia | |].
  - left. by rewrite Hidx.
  - right. exists n. rewrite Hidx. split; [done|]. split; [done|].
    destruct (Z.eqb_spec (0 + Z.of_nat n) (-1)); [lia|].
    unfold slice_to, slice_from. f_equal; f_equal; lia.
Qed.

Lemma without_first_subseteq refs subId s :
  s ∈ without_first refs subId → s ∈ refs.
Proof.
  destruct (without_first_spec refs subId) as [[_ ->] | (n & _ & _ & ->)]; [done|].
  rewrite elem_of_app. intros [Hs | Hs].
  - by apply (subseteq_take n refs).
  - by apply (subseteq_drop (S n) refs).
Qed.

Lemma without_first_NoDup refs subId :
  NoDup refs → NoDup (without_first refs subId) ∧ subId ∉ without_first refs subId.
Proof.
  intros Hnd.
  destruct (without_first_spec refs subId) as [[Hnot ->] | (n & Hlook & Hnot & ->)]; [done|].
  rewrite <- (take_drop_middle refs n subId Hlook) in Hnd.
  apply NoDup_app in Hnd as (Hnd1 & Hdisj & Hnd2).
  apply NoDup_cons in Hnd2 as [Hnot2 Hnd2].
  split.
  - apply NoDup_app. split; [done|]. split; [|done].
    intros x Hx Hx'. apply (Hdisj x Hx). by right.
  - rewrite elem_of_app. by intros [|].
Qed.

Lemma without_first_length refs subId :
  length refs - 1 ≤ length (without_first refs subId).
Proof.
  destruct (without_first_spec refs subId) as [[_ ->] | (n & Hlook & _ & ->)]; [lia|].
  apply lookup_lt_Some in Hlook.
  rewrite length_app, length_take, length_drop. lia.
Qed.

Lemma fresh_registry_consistent this options :
  new_RedisPubSub options = Normal this → consistent this.
Proof.
  unfold new_RedisPubSub.
  assert (Hempty : ∀ this', subscriptionMap this' = ∅ → subsRefsMap this' = ∅ →
            consistent this').
  { intros this' Hsm Hrefs. split; [|split].
    - intros k refs s. by rewrite Hrefs, lookup_empty.
    - intros k refs. by rewrite Hrefs, lookup_empty.
    - intros s r. by rewrite Hsm, lookup_empty. }
  destruct (opt_reviver options), (opt_deserializer options);
    intros [= <-]; by apply Hempty.
Qed.

Lemma subscribe_consistent this trigger l options err :
  consistent this → consistent (subscribe this trigger l options err).1.1.
Proof.
  intros (Hrec & Hdist & Hiss).
  set (t := triggerTransform this trigger options).
  set (id := currentSubscriptionId this).
  assert (Hfresh : ∀ k refs, subsRefsMap this !! k = Some refs → id ∉ refs).
  { intros k refs Hk Hin. destruct (Hrec _ _ _ Hk Hin) as [l0 Hl0].
    apply Hiss in Hl0. unfold id in Hl0. lia. }
  assert (Hold : ∀ k refs s, subsRefsMap this !! k = Some refs → s ∈ refs →
            ∃ l0, <[id := (t, l)]> (subscriptionMap this) !! s = Some (k, l0)).
  { intros k refs s Hk Hs. destruct (Hrec _ _ _ Hk Hs) as [l0 Hl0].
    exists l0. rewrite lookup_insert_ne; [done|].
    intros <-. by eapply Hfresh. }
  assert (Hissued : ∀ s r, <[id := (t, l)]> (subscriptionMap this) !! s = Some r →
            (s < id + 1)%Z).
  { intros s r. rewrite lookup_insert. case_decide; [lia|].
    intros Hs. apply Hiss in Hs. unfold id. lia. }
  unfold consistent, refs_have_records, refs_distinct, ids_issued.
  unfold subscribe, subscribe_call. simpl. fold t id.
  destruct (subsRefsMap this !! t) as [refs'|] eqn:Ht.
  - destruct (0 <? length refs') eqn:Hlen; simpl.
    + split; [|split]; simpl.
      * intros k refs s. rewrite lookup_insert. case_decide as Hk.
        -- subst k. intros [= <-]. rewrite elem_of_app, list_elem_of_singleton.
           intros [Hs | ->]; [by eapply Hold|].
           exists l. by rewrite lookup_insert_eq.
        -- intros Hk' Hs. by eapply Hold.
      * intros k refs. rewrite lookup_insert. case_decide as Hk.
        -- subst k. intros [= <-]. split; [|by destruct refs'].
           apply NoDup_app. split; [by apply (Hdist t)|].
           split; [|apply NoDup_singleton].
           intros x Hx ->%list_elem_of_singleton. by eapply Hfresh.
        -- apply Hdist.
      * exact Hissued.
    + destruct (Hdist _ _ Ht) as [_ Hne]. destruct refs'; [done|]. by simpl in Hlen.
  - destruct err as [e|]; simpl.
    + split; [|split]; simpl; [exact Hold | exact Hdist | exact Hissued].
    + rewrite Ht. simpl. split; [|split]; simpl.
      * intros k refs s. rewrite lookup_insert. case_decide as Hk.
        -- subst k. intros [= <-]. intros ->%list_elem_of_singleton.
           exists l. by rewrite lookup_insert_eq.
        -- intros Hk' Hs. by eapply Hold.
      * intros k refs. rewrite lookup_insert. case_decide as Hk.
        -- intros [= <-]. split; [apply NoDup_singleton | done].
        -- apply Hdist.
      * exact Hissued.
Qed.

Lemma unsubscribe_consistent this subId :
  consistent this → consistent (unsubscribe this subId).1.1.
Proof.
  intros (Hrec & Hdist & Hiss).
  unfold consistent, refs_have_records, refs_distinct, ids_issued.
  unfold unsubscribe.
  set (triggerName := match subscriptionMap this !! subId with
                      | Some (t, _) => Some t
                      | None => None
                      end).
  set (key := property_key triggerName).
  assert (Hother : ∀ k refs s, k ≠ key → subsRefsMap this !! k = Some refs →
            s ∈ refs → s ≠ subId).
  { intros k refs s Hk Hrefs Hs ->. destruct (Hrec _ _ _ Hrefs Hs) as [l0 Hl0].
    apply Hk. unfold key, triggerName. by rewrite Hl0. }
  destruct (subsRefsMap this !! key) as [refs'|] eqn:Hkey; [|done].
  destruct (Hdist _ _ Hkey) as [Hnd Hne].
  destruct (length refs' =? 1) eqn:Hlen; simpl.
  - split; [|split]; simpl.
    + intros k refs s. rewrite lookup_delete. case_decide as Hk; [done|].
      intros Hrefs Hs. destruct (Hrec _ _ _ Hrefs Hs) as [l0 Hl0].
      exists l0. rewrite lookup_delete_ne; [done|].
      intros <-. by eapply (Hother k refs subId).
    + intros k refs. rewrite lookup_delete. case_decide; [done | apply Hdist].
    + intros s r. rewrite lookup_delete. case_decide; [done | apply Hiss].
  - fold (without_first refs' subId).
    split; [|split]; simpl.
    + intros k refs s. rewrite lookup_insert. case_decide as Hk.
      * subst k. intros [= <-] Hs.
        destruct (without_first_NoDup refs' subId Hnd) as [_ Hnot].
        destruct (Hrec _ _ s Hkey) as [l0 Hl0]; [by eapply without_first_subseteq|].
        exists l0. rewrite lookup_delete_ne; [done|]. by intros <-.
      * intros Hrefs Hs. destruct (Hrec _ _ _ Hrefs Hs) as [l0 Hl0].
        exists l0. rewrite lookup_delete_ne; [done|].
        intros <-. by eapply (Hother k refs subId).
    + intros k refs. rewrite lookup_insert. case_decide as Hk.
      * intros [= <-]. split; [by apply without_first_NoDup|].
        pose proof (without_first_length refs' subId) as Hl.
        apply Nat.eqb_neq in Hlen.
        destruct refs' as [|? [|? ?]]; [done | done |].
        simpl in Hl. destruct (without_first _ _); [simpl in Hl; lia | done].
      * apply Hdist.
    + intros s r. rewrite lookup_delete. case_decide; [done | apply Hiss].
Qed.

(** Every state reached from a new registry by complete calls of
    [subscribe] and [unsubscribe], whatever the Redis client answers, has
    the record of every id of every list of [subsRefsMap], under the key of
    the list; no list is empty or repeats an id. *)
Lemma run_operations_consistent this ops :
  consistent this → consistent (run_operations this ops).
Proof.
  unfold run_operations.
  induction ops as [|op ops IH] in this |- *; [done|].
  intros Hc. simpl. apply IH.
  destruct op; simpl; [by apply subscribe_consistent | by apply unsubscribe_consistent].
Qed.

Lemma without_first_other refs subId s :
  s ∈ refs → s ≠ subId → s ∈ without_first refs subId.
Proof.
  intros Hs Hne.
  destruct (without_first_spec refs subId) as [[_ ->] | (n & Hlook & _ & ->)]; [done|].
  rewrite <- (take_drop_middle refs n subId Hlook) in Hs.
  rewrite elem_of_app, elem_of_cons in Hs. rewrite elem_of_app.
  destruct Hs as [Hs | [-> | Hs]]; [by left | done | by right].
Qed.

(** The other half of the bijection holds as long as no subscribe is
    refused and [unsubscribe] is called with ids that have a record. *)
Lemma subscribe_accepted_keeps_bijection this trigger l options :
  records_have_refs this →
  records_have_refs (subscribe this trigger l options None).1.1.
Proof.
  intros Hrefs. unfold records_have_refs.
  set (t := triggerTransform this trigger options).
  set (id := currentSubscriptionId this).
  unfold subscribe, subscribe_call. simpl. fold t id.
  destruct (subsRefsMap this !! t) as [refs'|] eqn:Ht.
  - destruct (0 <? length refs') eqn:Hlen; simpl.
    + intros s k l0. rewrite lookup_insert. case_decide as Hs.
      * intros [= <- <-]. exists (refs' ++ [id]).
        rewrite lookup_insert_eq. split; [done|].
        rewrite elem_of_app, list_elem_of_singleton. by right.
      * intros Hrec. destruct (Hrefs _ _ _ Hrec) as (refs & Hk & Hin).
        destruct (decide (k = t)) as [->|Hk'].
        -- exists (refs' ++ [id]). rewrite lookup_insert_eq. split; [done|].
           rewrite Ht in Hk. injection Hk as ->.
           rewrite elem_of_app. by left.
        -- exists refs. by rewrite lookup_insert_ne.
    + rewrite Ht. simpl.
      intros s k l0. rewrite lookup_insert. case_decide as Hs.
      * intros [= <- <-]. exists (refs' ++ [id]).
        rewrite lookup_insert_eq. split; [done|].
        rewrite elem_of_app, list_elem_of_singleton. by right.
      * intros Hrec. destruct (Hrefs _ _ _ Hrec) as (refs & Hk & Hin).
        destruct (decide (k = t)) as [->|Hk'].
        -- rewrite Ht in Hk. injection Hk as ->.
           destruct refs; [by apply elem_of_nil in Hin | by simpl in Hlen].
        -- exists refs. by rewrite lookup_insert_ne.
  - simpl. rewrite ?Ht. simpl.
    intros s k l0. rewrite lookup_insert. case_decide as Hs.
    + intros [= <- <-]. exists [id].
      rewrite lookup_insert_eq. split; [done | by apply list_elem_of_singleton].
    + intros Hrec. destruct (Hrefs _ _ _ Hrec) as (refs & Hk & Hin).
      destruct (decide (k = t)) as [->|Hk']; [congruence|].
      exists refs. by rewrite lookup_insert_ne.
Qed.

Lemma unsubscribe_known_keeps_bijection this subId :
  records_have_refs this →
  is_Some (subscriptionMap this !! subId) →
  records_have_refs (unsubscribe this subId).1.1.
Proof.
  intros Hrefs [[t l] Hrec]. unfold records_have_refs, unsubscribe.
  rewrite Hrec. simpl.
  destruct (Hrefs _ _ _ Hrec) as (refs' & Ht & Hin). rewrite Ht.
  destruct (length refs' =? 1) eqn:Hlen; simpl.
  - apply Nat.eqb_eq in Hlen.
    destruct refs' as [|x [|? ?]]; try done.
    apply list_elem_of_singleton in Hin as <-.
    intros s k l0. rewrite lookup_delete. case_decide as Hs; [done|].
    intros Hrec'. destruct (Hrefs _ _ _ Hrec') as (refs & Hk & Hin').
    destruct (decide (k = t)) as [->|Hk'].
    + rewrite Ht in Hk. injection Hk as <-.
      apply list_elem_of_singleton in Hin'. congruence.
    + exists refs. by rewrite lookup_delete_ne.
  - fold (without_first refs' subId).
    intros s k l0. rewrite lookup_delete. case_decide as Hs; [done|].
    intros Hrec'. destruct (Hrefs _ _ _ Hrec') as (refs & Hk & Hin').
    destruct (decide (k = t)) as [->|Hk'].
    + rewrite Ht in Hk. injection Hk as <-.
      exists (without_first refs' subId). rewrite lookup_insert_eq.
      split; [done|]. apply without_first_other; [done | congruence].
    + exists refs. by rewrite lookup_insert_ne.
Qed.

End Registry_invariant.

(** ** The default codec *)

Section Default_codec.
Context `{Runtime}.

(** Without a serializer, [publish] sends what [JSON.stringify] returns. *)
Lemma publish_default this trigger payload reply h :
  serializer this = None →
  publish this trigger payload reply h =
    match JSON_stringify payload h with
    | Normal message =>
        (h, [EvPublish trigger message],
         match reply with Some e => Throw e | None => Normal tt end)
    | Throw e => (h, [], Throw e)
    end.
Proof. intros Hser. unfold publish. by rewrite Hser. Qed.

(** Without a deserializer, the decoder is [JSON.parse] with the reviver. *)
Lemma decode_default this message h :
  deserializer this = None →
  decode this message h = JSON_parse message (reviver this) h.
Proof. intros Hdes. unfold decode. by rewrite Hdes. Qed.

End Default_codec.

Lemma content_value_of_json j h :
  content (value_of_json j h).1 (value_of_json j h).2 = Some j.
Proof.
  destruct j; simpl; try done.
  - apply list_lookup_middle. done.
  - apply list_lookup_middle. done.
Qed.

(** X20. With the default codec, a value whose content is a document of
    null, booleans, strings of characters below 256, arrays, objects and
    integers that a double holds exactly (of magnitude 2^53 at most:
    fractions and exponents are not modelled) is published as a text that
    [onMessage] decodes to a value with the same content, which is what the
    listeners are called with. *)
Theorem default_codec_round_trip (this : RedisPubSub) trigger V h j :
  serializer this = None → deserializer this = None → reviver this = None →
  content h V = Some j → JSON.well_formed j → numbers_exact j = true →
  ∃ wire,
    publish this trigger V None h = (h, [EvPublish trigger (Some wire)], Normal tt)
    ∧ ∀ h0, ∃ h1 V',
        decode this wire h0 = (h1, Normal V')
        ∧ content h1 V' = Some j
        ∧ ∀ pattern channel subscribers,
            subsRefsMap this !! dispatch_key pattern channel = Some subscribers →
            subscribers ≠ [] →
            ∃ h2 calls r invoked,
              onMessage this pattern channel wire h0 = (h2, EvDecode wire :: calls, r)
              ∧ invoked `prefix_of` subscribers
              ∧ Forall2 (delivery this V') invoked calls
              ∧ (r = Normal tt → invoked = subscribers).
Proof.
  intros Hser Hdes Hrev Hcontent Hwf _.
  exists (JSON.stringify j). split.
  - rewrite publish_default by done. simpl.
    destruct V; try done; by rewrite Hcontent.
  - intros h0.
    exists (value_of_json j h0).1, (value_of_json j h0).2.
    assert (Hdecode : decode this (JSON.stringify j) h0
                      = ((value_of_json j h0).1, Normal (value_of_json j h0).2)).
    { rewrite decode_default, Hrev by done. simpl.
      rewrite JSON_facts.parse_stringify by done.
      by destruct (value_of_json j h0). }
    split; [done|]. split; [apply content_value_of_json|].
    intros pattern channel subscribers Hrefs Hne.
    rewrite (onMessage_fan_out _ _ _ _ _ _ Hrefs Hne).
    unfold parse_message. rewrite Hdecode.
    destruct (fan_out this (value_of_json j h0).2 subscribers (value_of_json j h0).1)
      as [[h2 calls] r] eqn:Hfan.
    destruct (fan_out_deliveries _ _ _ _ _ _ _ Hfan) as (invoked & Hpre & Hdel & Hnormal).
    by exists h2, calls, r, invoked.
Qed.

(** * The properties on examples *)

(** C1. A subscribe that the Redis client refuses rejects the promise and
    leaves [subsRefsMap] as it was, but the record of the new id stays in
    [subscriptionMap]. *)
Theorem refused_subscribe_keeps_record :
  (subscribe fresh_registry "chat.room1" (listener_ok "L") ∅ refused).2
    = Throw (TransportError "ECONNREFUSED")
  ∧ (subscribe fresh_registry "chat.room1" (listener_ok "L") ∅ refused).1.2
    = [EvSubscribe "chat.room1"]
  ∧ subsRefsMap (subscribe fresh_registry "chat.room1" (listener_ok "L") ∅ refused).1.1
    = subsRefsMap fresh_registry
  ∧ subscriptionMap fresh_registry !! 0%Z = None
  ∧ subscriptionMap (subscribe fresh_registry "chat.room1" (listener_ok "L") ∅ refused).1.1
      !! 0%Z = Some ("chat.room1", listener_ok "L").
Proof. repeat split; vm_compute; reflexivity. Qed.

(** What the record left by a refused subscribe does later: the next
    subscribe to the channel succeeds with id 1, and [unsubscribe 0] then
    unsubscribes the channel from Redis and deletes its list, so that the
    listener of id 1 gets no message any more. *)
Example leftover_record_unsubscribes_another :
  let this := run_operations fresh_registry
                [OpSubscribe "chat.room1" (listener_ok "L") ∅ refused;
                 OpSubscribe "chat.room1" (listener_ok "L'") ∅ None] in
  subsRefsMap this !! "chat.room1" = Some [1%Z]
  ∧ unsubscribe this 0
    = (unsubscribed this 0,
       [EvUnsubscribe (Some "chat.room1"); EvPUnsubscribe (Some "chat.room1")],
       Normal tt)
  ∧ subscriptionMap (unsubscribed this 0) !! 1%Z = Some ("chat.room1", listener_ok "L'")
  ∧ onMessage (unsubscribed this 0) None "chat.room1" "1" [] = ([], [], Normal tt).
Proof. repeat split; vm_compute; reflexivity. Qed.

(** C3. With a subscription to the trigger named null, [unsubscribe] of an
    id that has no record does not throw: it sends unsubscribe(null) and
    punsubscribe(null) and deletes the list of that subscription, whose
    record stays. *)
Theorem unsubscribe_unknown_id_takes_null_channel :
  subscriptionMap null_registry !! 7%Z = None
  ∧ subsRefsMap null_registry !! "null" = Some [0%Z]
  ∧ unsubscribe null_registry 7
    = (unsubscribed null_registry 7, [EvUnsubscribe None; EvPUnsubscribe None], Normal tt)
  ∧ subsRefsMap (unsubscribed null_registry 7) !! "null" = None
  ∧ subscriptionMap (unsubscribed null_registry 7) !! 0%Z = Some ("null", listener_ok "L").
Proof. repeat split; vm_compute; reflexivity. Qed.

(** C9. After a subscribe that the Redis client refused, every id of every
    list still has its record, but the record of the refused id is in no
    list: the two tables are no longer in bijection. *)
Theorem refused_subscribe_breaks_bijection :
  refs_have_records (run_operations fresh_registry
                       [OpSubscribe "chat.room1" (listener_ok "L") ∅ refused])
  ∧ ¬ records_have_refs (run_operations fresh_registry
                           [OpSubscribe "chat.room1" (listener_ok "L") ∅ refused]).
Proof.
  split.
  - apply run_operations_consistent.
    by apply (fresh_registry_consistent _ default_options).
  - intros Hall.
    destruct (Hall 0%Z "chat.room1" (listener_ok "L")) as (refs & Hrefs & _);
      [vm_compute; reflexivity|].
    vm_compute in Hrefs. discriminate.
Qed.

(** The same after [unsubscribe] of an id without a record, when a
    subscription to the trigger named null exists. *)
Example unsubscribe_unknown_breaks_bijection :
  records_have_refs null_registry
  ∧ ¬ records_have_refs (run_operations null_registry [OpUnsubscribe 7]).
Proof.
  split.
  - assert (Hsm : subscriptionMap null_registry = {[0%Z := ("null", listener_ok "L")]})
      by (vm_compute; reflexivity).
    intros subId k l. rewrite Hsm.
    intros [<- [= <- <-]]%lookup_singleton_Some.
    exists [0%Z]. split; [vm_compute; reflexivity | by left].
  - intros Hall.
    destruct (Hall 0%Z "null" (listener_ok "L")) as (refs & Hrefs & _);
      [vm_compute; reflexivity|].
    vm_compute in Hrefs. discriminate.
Qed.

Lemma unsubscribe_last_tears_down_witness :
  subscriptionMap chat_registry !! 0%Z = Some ("chat.room1", listener_ok "L")
  ∧ subsRefsMap chat_registry !! "chat.room1" = Some [0%Z]
  ∧ ∃ this',
      unsubscribe chat_registry 0
        = (this', [EvUnsubscribe (Some "chat.room1"); EvPUnsubscribe (Some "chat.room1")],
           Normal tt)
      ∧ subsRefsMap this' = delete "chat.room1" (subsRefsMap chat_registry)
      ∧ subscriptionMap this' = delete 0%Z (subscriptionMap chat_registry)
      ∧ subsRefsMap this' !! "chat.room1" = None
      ∧ subscriptionMap this' !! 0%Z = None
      ∧ ∀ pattern channel message h,
          dispatch_key pattern channel = "chat.room1" →
          onMessage this' pattern channel message h = (h, [], Normal tt).
Proof.
  split; [vm_compute; reflexivity|]. split; [vm_compute; reflexivity|].
  apply (unsubscribe_last_tears_down chat_registry 0 "chat.room1" (listener_ok "L"));
    vm_compute; reflexivity.
Defined.

(** C2 as stated fails: the first of two listeners throws, and the second
    is not called. *)
Lemma throwing_listener_ends_fan_out :
  subsRefsMap news_registry !! "news" = Some [0%Z; 1%Z]
  ∧ subscriptionMap news_registry !! 0%Z = Some ("news", listener_throws "L1")
  ∧ subscriptionMap news_registry !! 1%Z = Some ("news", listener_ok "L2")
  ∧ onMessage news_registry None "news" "1" []
    = ([], [EvDecode "1"; EvCall (listener_throws "L1") (VNumber 1)],
       Throw (Thrown (VNumber 1))).
Proof. repeat split; vm_compute; reflexivity. Qed.

Lemma onMessage_stops_at_throwing_listener_witness :
  onMessage ticks_registry None "ticks" "true" []
    = ([], EvDecode "true" :: [EvCall (listener_ok "L1") (VBool true)]
             ++ [EvCall (listener_throws "L2") (VBool true)],
       Throw (Thrown (VBool true)))
  ∧ Forall2 (delivery ticks_registry (VBool true)) ([0%Z] ++ [1%Z])
      ([EvCall (listener_ok "L1") (VBool true)]
         ++ [EvCall (listener_throws "L2") (VBool true)]).
Proof.
  apply (onMessage_stops_at_throwing_listener ticks_registry None "ticks" "true" []
           [0%Z] 1%Z [2%Z] [] (VBool true) [] [EvCall (listener_ok "L1") (VBool true)]
           "ticks" (listener_throws "L2") [] (Thrown (VBool true)));
    vm_compute; reflexivity.
Defined.

(** C10 as stated fails: the second listener of the list is not called at
    all when the first throws, so it is not called with the decoded value. *)
Lemma decoded_object_not_handed_to_all :
  subsRefsMap failing_audit_registry !! "audit" = Some [0%Z; 1%Z]
  ∧ subscriptionMap failing_audit_registry !! 1%Z = Some ("audit", listener_copies "L2")
  ∧ onMessage failing_audit_registry None "audit" a1_text []
    = ([a1], [EvDecode a1_text; EvCall (listener_throws "L1") (VRef 0)],
       Throw (Thrown (VRef 0))).
Proof. repeat split; vm_compute; reflexivity. Qed.

(** The two listeners are handed one object: the second copies what the
    first wrote to it. *)
Lemma onMessage_decodes_once_witness :
  subsRefsMap audit_registry !! dispatch_key None "audit" = Some [0%Z; 1%Z]
  ∧ onMessage audit_registry None "audit" a1_text []
    = ([JObject [("seen", JBool true)]; JObject [("seen", JBool true)]],
       [EvDecode a1_text; EvCall (listener_marks "L1") (VRef 0);
        EvCall (listener_copies "L2") (VRef 0)],
       Normal tt)
  ∧ ∃ h' calls r invoked,
      onMessage audit_registry None "audit" a1_text [] = (h', EvDecode a1_text :: calls, r)
      ∧ decodings (EvDecode a1_text :: calls) = 1
      ∧ invoked `prefix_of` [0%Z; 1%Z]
      ∧ Forall2 (delivery audit_registry (parse_message audit_registry a1_text []).2)
          invoked calls
      ∧ (r = Normal tt → invoked = [0%Z; 1%Z]).
Proof.
  split; [vm_compute; reflexivity|]. split; [vm_compute; reflexivity|].
  apply (onMessage_decodes_once audit_registry None "audit" a1_text [] [0%Z; 1%Z]);
    [vm_compute; reflexivity | done].
Defined.

(** The object that is published and the object that the listener is
    given are two objects with one content. *)
Lemma default_codec_round_trip_witness :
  content [a1] (VRef 0) = Some a1
  ∧ publish chat_registry "chat.room1" (VRef 0) None [a1]
    = ([a1], [EvPublish "chat.room1" (Some a1_text)], Normal tt)
  ∧ onMessage chat_registry None "chat.room1" a1_text [a1]
    = ([a1; a1], [EvDecode a1_text; EvCall (listener_ok "L") (VRef 1)], Normal tt)
  ∧ ∃ wire,
      publish chat_registry "chat.room1" (VRef 0) None [a1]
        = ([a1], [EvPublish "chat.room1" (Some wire)], Normal tt)
      ∧ ∀ h0, ∃ h1 V',
          decode chat_registry wire h0 = (h1, Normal V')
          ∧ content h1 V' = Some a1
          ∧ ∀ pattern channel subscribers,
              subsRefsMap chat_registry !! dispatch_key pattern channel = Some subscribers →
              subscribers ≠ [] →
              ∃ h2 calls r invoked,
                onMessage chat_registry pattern channel wire h0
                  = (h2, EvDecode wire :: calls, r)
                ∧ invoked `prefix_of` subscribers
                ∧ Forall2 (delivery chat_registry V') invoked calls
                ∧ (r = Normal tt → invoked = subscribers).
Proof.
  split; [reflexivity|]. split; [vm_compute; reflexivity|].
  split; [vm_compute; reflexivity|].
  apply (default_codec_round_trip chat_registry "chat.room1" (VRef 0) [a1] a1);
    try reflexivity.
  constructor; [|repeat constructor].
  apply NoDup_singleton.
Defined.

(** * The rest of the class *)

Section Registry_more.
Context `{Runtime}.

Implicit Types (this : RedisPubSub) (subId : Z) (h : heap).


(** X5. An [unsubscribe] that returns has deleted the record of its id;
    a second [unsubscribe] of the id throws and changes nothing, unless
    something is subscribed under the trigger name null. *)
Theorem unsubscribe_twice_is_refused this subId this' evs :
  unsubscribe this subId = (this', evs, Normal tt) →
  subscriptionMap this' !! subId = None
  ∧ (subsRefsMap this' !! "null" = None →
     unsubscribe this' subId = (this', [], Throw (NoSubscription subId))).
Proof.
  intros Hun.
  assert (Hgone : subscriptionMap this' !! subId = None).
  { unfold unsubscribe in Hun.
    destruct (subsRefsMap this !! _) as [refs|]; [|done].
    destruct (length refs =? 1); simpl in Hun;
      injection Hun as <- _; simpl; apply lookup_delete_eq. }
  split; [done|]. intros Hnull. by apply unsubscribe_unknown.
Qed.




(** X7. In a registry in which every listed id has its record, every
    listener that [onMessage] calls is the listener of a subscription to
    the dispatch key of the message, and it is called with the decoded
    message. *)
Theorem onMessage_calls_listeners_of_its_channel
    this pattern channel message h h' evs r :
  refs_have_records this →
  onMessage this pattern channel message h = (h', evs, r) →
  ∀ l v, EvCall l v ∈ evs →
    v = (parse_message this message h).2
    ∧ ∃ subId, subscriptionMap this !! subId = Some (dispatch_key pattern channel, l).
Proof.
  intros Hrec Hon l v Hin. unfold onMessage in Hon.
  destruct (subsRefsMap this !! dispatch_key pattern channel) as [subscribers|] eqn:Hk;
    [|injection Hon as _ <- _; by apply elem_of_nil in Hin].
  destruct (length subscribers =? 0);
    [injection Hon as _ <- _; by apply elem_of_nil in Hin|].
  destruct (parse_message this message h) as [h1 v0]. simpl.
  destruct (fan_out this v0 subscribers h1) as [[h2 calls] r'] eqn:Hfan.
  injection Hon as _ <- _.
  apply elem_of_cons in Hin as [Hin | Hin]; [done|].
  destruct (fan_out_deliveries _ _ _ _ _ _ _ Hfan) as (invoked & [rest ->] & Hdel & _).
  apply list_elem_of_lookup in Hin as [i Hi].
  destruct (Forall2_lookup_r _ _ _ _ _ Hdel Hi) as (subId & Hsub & t & l' & Hl' & Heq).
  injection Heq as <- <-. split; [done|]. exists subId.
  destruct (Hrec _ _ subId Hk) as [l0 Hl0].
  { apply elem_of_app. left. by eapply list_elem_of_lookup_2. }
  rewrite Hl0 in Hl'. injection Hl' as <- <-. done.
Qed.






(** X15. A pmessage whose pattern is not the empty string is handled as a
    message on the channel named like the pattern, whatever its channel. *)
Theorem pmessage_dispatches_on_pattern this pattern channel message h :
  pattern ≠ "" →
  on_pmessage this pattern channel message h = on_message this pattern message h.
Proof.
  intros Hp. unfold on_pmessage, on_message, onMessage.
  by rewrite dispatch_key_pattern.
Qed.

(** X16. When the list of the dispatch key holds an id without a record,
    [onMessage] calls the listeners of the ids before it and then throws a
    TypeError: the listeners of the ids after it are not called. *)
Theorem onMessage_missing_record
    this pattern channel message h pre subId post h1 v h2 evs :
  subsRefsMap this !! dispatch_key pattern channel = Some (pre ++ subId :: post) →
  parse_message this message h = (h1, v) →
  fan_out this v pre h1 = (h2, evs, Normal tt) →
  subscriptionMap this !! subId = None →
  onMessage this pattern channel message h
    = (h2, EvDecode message :: evs, Throw TypeError).
Proof.
  intros Hrefs Hparse Hpre Hnone.
  rewrite (onMessage_fan_out _ _ _ _ _ _ Hrefs); [|by destruct pre].
  rewrite Hparse, fan_out_app, Hpre. simpl. rewrite Hnone.
  by rewrite app_nil_r.
Qed.

(** X18. In a consistent registry, after [unsubscribe] of an id, whether
    it returned or threw, no list holds the id. *)
Theorem unsubscribed_id_is_in_no_list this subId :
  consistent this →
  ∀ k refs, subsRefsMap (unsubscribe this subId).1.1 !! k = Some refs → subId ∉ refs.
Proof.
  intros Hc k refs Hk Hin.
  destruct (unsubscribe_consistent this subId Hc) as (Hrec' & _ & _).
  destruct (Hrec' _ _ _ Hk Hin) as [l Hl].
  destruct Hc as (Hrec & _ & _).
  unfold unsubscribe in Hk, Hl.
  destruct (subsRefsMap this !! property_key _) as [refs0|] eqn:Hkey.
  - destruct (length refs0 =? 1); simpl in Hl; by rewrite lookup_delete_eq in Hl.
  - simpl in Hk, Hl. destruct (Hrec _ _ _ Hk Hin) as [l0 Hl0].
    rewrite Hl0 in Hkey. simpl in Hkey. congruence.
Qed.

End Registry_more.

(** ** On examples *)

Lemma run_operations_fresh_consistent ops :
  consistent (run_operations fresh_registry ops).
Proof.
  apply run_operations_consistent.
  by apply (fresh_registry_consistent _ default_options).
Qed.

Lemma unsubscribe_twice_is_refused_witness :
  unsubscribe chat_registry 0
    = (unsubscribed chat_registry 0,
       [EvUnsubscribe (Some "chat.room1"); EvPUnsubscribe (Some "chat.room1")], Normal tt)
  ∧ subscriptionMap (unsubscribed chat_registry 0) !! 0%Z = None
  ∧ unsubscribe (unsubscribed chat_registry 0) 0
    = (unsubscribed chat_registry 0, [], Throw (NoSubscription 0)).
Proof.
  split; [reflexivity|].
  destruct (unsubscribe_twice_is_refused chat_registry 0 (unsubscribed chat_registry 0)
              [EvUnsubscribe (Some "chat.room1"); EvPUnsubscribe (Some "chat.room1")])
    as [Hgone Hagain]; [reflexivity|].
  split; [exact Hgone|]. apply Hagain. vm_compute; reflexivity.
Defined.


Lemma onMessage_calls_listeners_of_its_channel_witness :
  onMessage two_channel_registry None "news" "7" []
    = ([JNumber 7], [EvDecode "7"; EvCall (listener_copies "L2") (VNumber 7)], Normal tt)
  ∧ ∀ l v, EvCall l v ∈ [EvDecode "7"; EvCall (listener_copies "L2") (VNumber 7)] →
      v = (parse_message two_channel_registry "7" []).2
      ∧ ∃ subId, subscriptionMap two_channel_registry !! subId
                 = Some (dispatch_key None "news", l).
Proof.
  split; [vm_compute; reflexivity|].
  apply (onMessage_calls_listeners_of_its_channel two_channel_registry None "news" "7" []
           [JNumber 7] _ (Normal tt)); [|vm_compute; reflexivity].
  apply (run_operations_fresh_consistent
           [OpSubscribe "chat" (listener_ok "L1") ∅ None;
            OpSubscribe "news" (listener_copies "L2") ∅ None]).
Defined.


Lemma pmessage_dispatches_on_pattern_witness :
  subsRefsMap pattern_registry !! "news.*" = Some [0%Z]
  ∧ subsRefsMap pattern_registry !! "news.sport" = None
  ∧ on_pmessage pattern_registry "news.*" "news.sport" "1" []
    = ([], [EvDecode "1"; EvCall (listener_ok "L") (VNumber 1)], Normal tt)
  ∧ on_pmessage pattern_registry "news.*" "news.sport" "1" []
    = on_message pattern_registry "news.*" "1" [].
Proof.
  split; [vm_compute; reflexivity|]. split; [vm_compute; reflexivity|].
  split; [vm_compute; reflexivity|].
  by apply (pmessage_dispatches_on_pattern pattern_registry "news.*" "news.sport" "1" []).
Defined.

Lemma onMessage_missing_record_witness :
  (subscribe_call fresh_registry "chat" (listener_ok "L1") ∅).2
    = inr {| pending_triggerName := "chat"; pending_id := 0 |}
  ∧ (subscribe_call (subscribe_call fresh_registry "chat" (listener_ok "L1") ∅).1.1
       "chat" (listener_ok "L2") ∅).2
    = inr {| pending_triggerName := "chat"; pending_id := 1 |}
  ∧ subsRefsMap stranded_registry !! "chat" = Some ([] ++ 0%Z :: [])
  ∧ subscriptionMap stranded_registry !! 0%Z = None
  ∧ subscriptionMap stranded_registry !! 1%Z = Some ("chat", listener_ok "L2")
  ∧ onMessage stranded_registry None "chat" "1" [] = ([], EvDecode "1" :: [], Throw TypeError).
Proof.
  split; [vm_compute; reflexivity|]. split; [vm_compute; reflexivity|].
  split; [vm_compute; reflexivity|]. split; [vm_compute; reflexivity|].
  split; [vm_compute; reflexivity|].
  apply (onMessage_missing_record stranded_registry None "chat" "1" [] [] 0 [] []
           (VNumber 1) [] []); vm_compute; reflexivity.
Defined.

Lemma unsubscribed_id_is_in_no_list_witness :
  subsRefsMap (run_operations fresh_registry mixed_calls) !! "news" = Some [2%Z]
  ∧ (unsubscribe (run_operations fresh_registry mixed_calls) 2).2 = Normal tt
  ∧ subsRefsMap (unsubscribe (run_operations fresh_registry mixed_calls) 2).1.1 !! "news"
    = None
  ∧ ∀ k refs,
      subsRefsMap (unsubscribe (run_operations fresh_registry mixed_calls) 2).1.1 !! k
        = Some refs →
      2%Z ∉ refs.
Proof.
  split; [vm_compute; reflexivity|]. split; [vm_compute; reflexivity|].
  split; [vm_compute; reflexivity|].
  apply (unsubscribed_id_is_in_no_list (run_operations fresh_registry mixed_calls) 2).
  apply run_operations_fresh_consistent.
Defined.

(** * The class on every input: properties *)

Module Js_facts.
Import Js.

(** ** Numbers *)

Lemma round_to_double_small z :
  (0 < z < 2 ^ 53)%Z → round_to_double z = z.
Proof.
  intros Hz. unfold round_to_double.
  assert (Hlog : (Z.log2 (Z.abs z) < 53)%Z).
  { rewrite Z.abs_eq by lia. apply Z.log2_lt_pow2; lia. }
  rewrite Z.max_l by lia. rewrite Z.pow_0_r, Z.div_1_r, Z.mod_1_r.
  simpl. rewrite Z.abs_eq by lia. rewrite Z.sgn_pos by lia. lia.
Qed.

Lemma increment_below n :
  (0 ≤ n < 2 ^ 53)%Z → increment n = (n + 1)%Z.
Proof.
  intros Hn. unfold increment.
  destruct (decide (n + 1 = 2 ^ 53)%Z) as [->|Hne]; [reflexivity|].
  apply round_to_double_small. lia.
Qed.

Lemma increment_stops : increment (2 ^ 53) = (2 ^ 53)%Z.
Proof. reflexivity. Qed.

Lemma increment_in_range n :
  (0 ≤ n ≤ 2 ^ 53)%Z → (0 ≤ increment n ≤ 2 ^ 53)%Z.
Proof.
  intros Hn. destruct (decide (n = 2 ^ 53)%Z) as [->|Hne].
  - rewrite increment_stops. lia.
  - rewrite increment_below by lia. lia.
Qed.

Lemma increment_min n :
  (0 ≤ n ≤ 2 ^ 53)%Z → increment n = Z.min (2 ^ 53) (n + 1).
Proof.
  intros Hn. destruct (decide (n = 2 ^ 53)%Z) as [->|Hne].
  - reflexivity.
  - rewrite increment_below by lia. lia.
Qed.

(** ** Plain objects *)

Lemma get_own {A} (o : gmap string A) k a :
  o !! k = Some a → get o k = Own a.
Proof. intros Hk. unfold get. by rewrite Hk. Qed.

Lemma get_ordinary {A} (o : gmap string A) k :
  Object_prototype k = None →
  get o k = match o !! k with Some a => Own a | None => Undefined end.
Proof. intros Hk. unfold get. by rewrite Hk. Qed.

Lemma get_inherited {A} (o : gmap string A) k i :
  o !! k = None → Object_prototype k = Some i → get o k = Inherited i.
Proof. intros Ho Hk. unfold get. by rewrite Ho, Hk. Qed.

Lemma get_cases {A} (o : gmap string A) k :
  (∃ a, o !! k = Some a ∧ get o k = Own a)
  ∨ (∃ i, o !! k = None ∧ Object_prototype k = Some i ∧ get o k = Inherited i)
  ∨ (o !! k = None ∧ Object_prototype k = None ∧ get o k = Undefined).
Proof.
  unfold get. destruct (o !! k) as [a|]; [left; by exists a|].
  destruct (Object_prototype k) as [i|]; [right; left; by exists i | by right; right].
Qed.

Example round_to_double_examples :
  round_to_double (2 ^ 53 + 1) = (2 ^ 53)%Z
  ∧ round_to_double (2 ^ 53 + 2) = (2 ^ 53 + 2)%Z
  ∧ round_to_double (2 ^ 53 + 3) = (2 ^ 53 + 4)%Z
  ∧ round_to_double (- (2 ^ 53) - 1) = (- 2 ^ 53)%Z
  ∧ round_to_double 0 = 0%Z
  ∧ round_to_double (2 ^ 54 + 2) = (2 ^ 54)%Z
  ∧ round_to_double (2 ^ 54 + 6) = (2 ^ 54 + 8)%Z.
Proof. repeat split; vm_compute; reflexivity. Qed.


Section Registry.
Context `{Runtime}.

Implicit Types (this : RedisPubSub) (subId : Z) (h : list json) (f : Function).

(** ** subscribe *)

(** The registry once lines 88 and 89 have run. *)
Lemma subscribe_call_cases this trigger f options t :
  triggerTransform this trigger options = Normal t →
  let id := currentSubscriptionId this in
  let this2 :=
    with_subscriptionMap (<[id := (t, f)]> (subscriptionMap this))
      (with_currentSubscriptionId (increment id) this) in
  let pending :=
    (this2, [transport_subscribe options t],
     Normal (inr {| pending_triggerName := t; pending_id := id |})) in
  subscribe_call this trigger f options
  = match get (subsRefsMap this) t with
    | Own refs =>
        if (0 <? length refs)%nat then
          (with_subsRefsMap (<[t := refs ++ [id]]> (subsRefsMap this)) this2, [],
           Normal (inl id))
        else pending
    | Inherited (Method (S _)) => (this2, [], Throw TypeError)
    | Inherited (Method 0) | Inherited Prototype | Undefined => pending
    end.
Proof. intros Ht. unfold subscribe_call. by rewrite Ht. Qed.

Lemma subscribe_throwing_transform this trigger f options err e :
  triggerTransform this trigger options = Throw e →
  subscribe this trigger f options err = (this, [], Throws e).
Proof. intros Ht. unfold subscribe, subscribe_call. by rewrite Ht. Qed.

(** An accepted subscribe to a name that [Object.prototype] does not
    define. *)
Lemma subscribe_accepted_state this trigger f options t :
  triggerTransform this trigger options = Normal t →
  Object_prototype t = None →
  subscribe this trigger f options None
  = (with_subsRefsMap
       (<[t := default [] (subsRefsMap this !! t) ++ [currentSubscriptionId this]]>
          (subsRefsMap this))
       (with_subscriptionMap
          (<[currentSubscriptionId this := (t, f)]> (subscriptionMap this))
          (with_currentSubscriptionId (increment (currentSubscriptionId this)) this)),
     match default [] (subsRefsMap this !! t) with
     | [] => [transport_subscribe options t]
     | _ :: _ => []
     end,
     Promise (Resolved (currentSubscriptionId this))).
Proof.
  intros Ht Hord. unfold subscribe.
  rewrite (subscribe_call_cases _ _ _ _ _ Ht). simpl.
  rewrite get_ordinary by done.
  destruct (subsRefsMap this !! t) as [[|x refs]|] eqn:Hrefs; simpl;
    unfold subscribe_callback; simpl; rewrite ?get_ordinary by done;
    simpl; rewrite ?Hrefs; done.
Qed.

(** X2. A subscribe whose trigger transform returns a name that
    [Object.prototype] does not define, and that the Redis client accepts,
    resolves with the value of the counter, records the function under the
    id, appends the id to the list of the name and sets the counter to the
    next double: the counter plus one below 2^53, the counter itself at
    2^53.  A subscribe or a psubscribe is sent to Redis only when the name
    had no list, or an empty one. *)
Theorem subscribe_accepted_appends this trigger f options t :
  triggerTransform this trigger options = Normal t →
  Object_prototype t = None →
  let id := currentSubscriptionId this in
  let old := default [] (subsRefsMap this !! t) in
  subscribe this trigger f options None
  = (with_subsRefsMap (<[t := old ++ [id]]> (subsRefsMap this))
       (with_subscriptionMap (<[id := (t, f)]> (subscriptionMap this))
          (with_currentSubscriptionId (increment id) this)),
     match old with [] => [transport_subscribe options t] | _ :: _ => [] end,
     Promise (Resolved id))
  ∧ ((0 ≤ id < 2 ^ 53)%Z → increment id = (id + 1)%Z)
  ∧ (id = (2 ^ 53)%Z → increment id = id).
Proof.
  intros Ht Hord id old. split; [by apply subscribe_accepted_state|].
  split; [apply increment_below | by intros ->].
Qed.

(** X3. How [subscribe] ends.  When the trigger transform throws,
    [subscribe] throws what it threw and the registry is as it was.
    Otherwise the record is written under the value of the counter, the
    counter is set to the next double, and one of four things happens.  The
    promise is resolved with the id, which is appended to the list of the
    name (a name of [Object.prototype] has then a list of its own).  The
    promise is rejected with the error of the Redis client, and the lists
    are as they were.  For a name without a list that is a method of
    [Object.prototype] with parameters, [subscribe] throws a TypeError and
    sends nothing.  For a name without a list that is a method without
    parameters or [__proto__], the subscribe is sent and accepted, the
    callback throws a TypeError and the promise is never settled. *)
Theorem subscribe_outcomes this trigger f options err :
  match triggerTransform this trigger options with
  | Throw e => subscribe this trigger f options err = (this, [], Throws e)
  | Normal t =>
      subscriptionMap (subscribe this trigger f options err).1.1
        = <[currentSubscriptionId this := (t, f)]> (subscriptionMap this)
      ∧ currentSubscriptionId (subscribe this trigger f options err).1.1
        = increment (currentSubscriptionId this)
      ∧ match (subscribe this trigger f options err).2 with
        | Promise (Resolved id) =>
            id = currentSubscriptionId this
            ∧ (∀ i, Object_prototype t = Some i → is_Some (subsRefsMap this !! t))
            ∧ subsRefsMap (subscribe this trigger f options err).1.1
              = <[t := default [] (subsRefsMap this !! t) ++ [id]]> (subsRefsMap this)
        | Promise (Rejected e) =>
            err = Some e
            ∧ (subscribe this trigger f options err).1.2 = [transport_subscribe options t]
            ∧ subsRefsMap (subscribe this trigger f options err).1.1 = subsRefsMap this
        | Promise (Unsettled e) =>
            e = TypeError ∧ err = None
            ∧ subsRefsMap this !! t = None
            ∧ (Object_prototype t = Some (Method 0) ∨ Object_prototype t = Some Prototype)
            ∧ (subscribe this trigger f options err).1.2 = [transport_subscribe options t]
            ∧ subsRefsMap (subscribe this trigger f options err).1.1 = subsRefsMap this
        | Throws e =>
            e = TypeError
            ∧ subsRefsMap this !! t = None
            ∧ (∃ n, Object_prototype t = Some (Method (S n)))
            ∧ (subscribe this trigger f options err).1.2 = []
            ∧ subsRefsMap (subscribe this trigger f options err).1.1 = subsRefsMap this
        end
  end.
Proof.
  destruct (triggerTransform this trigger options) as [t|e] eqn:Ht;
    [|by apply subscribe_throwing_transform].
  unfold subscribe. rewrite (subscribe_call_cases _ _ _ _ _ Ht). simpl.
  destruct (get_cases (subsRefsMap this) t)
    as [(refs & Hown & ->) | [(i & Hown & Hi & ->) | (Hown & Hi & ->)]].
  - destruct refs as [|x refs]; simpl.
    + unfold subscribe_callback. destruct err as [e|]; simpl; [done|].
      rewrite (get_own _ _ _ Hown). simpl. rewrite Hown. split_and!; done.
    + rewrite Hown. split_and!; done.
  - destruct i as [[|n]|]; simpl.
    + unfold subscribe_callback. destruct err as [e|]; simpl; [done|].
      rewrite (get_inherited _ _ _ Hown Hi). simpl. split_and!; try done. by left.
    + split_and!; try done. by exists n.
    + unfold subscribe_callback. destruct err as [e|]; simpl; [done|].
      rewrite (get_inherited _ _ _ Hown Hi). simpl. split_and!; try done. by right.
  - unfold subscribe_callback. destruct err as [e|]; simpl; [done|].
    rewrite get_ordinary by done. simpl. rewrite Hown. simpl.
    split_and!; try done. intros i. by rewrite Hi.
Qed.

Lemma subscribe_state this trigger f options err t :
  triggerTransform this trigger options = Normal t →
  triggerTransform (subscribe this trigger f options err).1.1 = triggerTransform this
  ∧ subscriptionMap (subscribe this trigger f options err).1.1
    = <[currentSubscriptionId this := (t, f)]> (subscriptionMap this)
  ∧ currentSubscriptionId (subscribe this trigger f options err).1.1
    = increment (currentSubscriptionId this)
  ∧ (subsRefsMap (subscribe this trigger f options err).1.1 = subsRefsMap this
     ∨ subsRefsMap (subscribe this trigger f options err).1.1
       = <[t := default [] (subsRefsMap this !! t) ++ [currentSubscriptionId this]]>
           (subsRefsMap this)
       ∧ (Object_prototype t = None ∨ is_Some (subsRefsMap this !! t))).
Proof.
  intros Ht. unfold subscribe. rewrite (subscribe_call_cases _ _ _ _ _ Ht). simpl.
  destruct (get_cases (subsRefsMap this) t)
    as [(refs & Hown & ->) | [(i & Hown & Hi & ->) | (Hown & Hi & ->)]].
  - destruct refs as [|x refs]; simpl.
    + unfold subscribe_callback. destruct err as [e|]; simpl; [by split_and!; try left|].
      rewrite (get_own _ _ _ Hown). simpl. rewrite Hown.
      split_and!; try done. right. split; [done|]. right. by eexists.
    + rewrite Hown. split_and!; try done. right. split; [done|]. right. by eexists.
  - destruct i as [[|n]|]; simpl; try (by split_and!; try left);
      unfold subscribe_callback; destruct err as [e|]; simpl;
      rewrite ?(get_inherited _ _ _ Hown Hi); by split_and!; try left.
  - unfold subscribe_callback. destruct err as [e|]; simpl; [by split_and!; try left|].
    rewrite get_ordinary by done. simpl. rewrite Hown. simpl.
    split_and!; try done. right. split; [done | by left].
Qed.

Lemma subscribe_transform this trigger f options err :
  triggerTransform (subscribe this trigger f options err).1.1 = triggerTransform this.
Proof.
  destruct (triggerTransform this trigger options) as [t|e] eqn:Ht.
  - by destruct (subscribe_state this trigger f options err t Ht) as [-> _].
  - by rewrite (subscribe_throwing_transform _ _ _ _ _ _ Ht).
Qed.

Lemma subscribe_counter this trigger f options err :
  currentSubscriptionId (subscribe this trigger f options err).1.1
  = match triggerTransform this trigger options with
    | Normal _ => increment (currentSubscriptionId this)
    | Throw _ => currentSubscriptionId this
    end.
Proof.
  destruct (triggerTransform this trigger options) as [t|e] eqn:Ht.
  - by destruct (subscribe_state this trigger f options err t Ht) as (_ & _ & -> & _).
  - by rewrite (subscribe_throwing_transform _ _ _ _ _ _ Ht).
Qed.

(** ** unsubscribe *)

(** [unsubscribe] either throws and leaves the registry as it was, or
    deletes the record of the id and, under the name of its channel, deletes
    the list or takes the id out of it. *)
Lemma unsubscribe_cases this subId :
  ((unsubscribe this subId).1.1 = this
   ∧ (unsubscribe this subId).1.2 = []
   ∧ ∃ e, (unsubscribe this subId).2 = Throw e)
  ∨ (triggerTransform (unsubscribe this subId).1.1 = triggerTransform this
     ∧ currentSubscriptionId (unsubscribe this subId).1.1 = currentSubscriptionId this
     ∧ subscriptionMap (unsubscribe this subId).1.1 = delete subId (subscriptionMap this)
     ∧ (unsubscribe this subId).2 = Normal tt
     ∧ ((subsRefsMap (unsubscribe this subId).1.1
           = delete (channel_of this subId) (subsRefsMap this)
         ∧ (subsRefsMap this !! channel_of this subId = None
            ∨ ∃ x, subsRefsMap this !! channel_of this subId = Some [x]))
        ∨ ∃ refs, subsRefsMap this !! channel_of this subId = Some refs
                  ∧ length refs ≠ 1
                  ∧ (unsubscribe this subId).1.2 = []
                  ∧ subsRefsMap (unsubscribe this subId).1.1
                    = <[channel_of this subId := without_first refs subId]>
                        (subsRefsMap this))).
Proof.
  unfold unsubscribe. fold (channel_of this subId).
  destruct (get_cases (subsRefsMap this) (channel_of this subId))
    as [(refs & Hown & ->) | [(i & Hown & Hi & ->) | (Hown & Hi & ->)]].
  - right. destruct (length refs =? 1) eqn:Hlen; simpl.
    + split_and!; try done. left. split; [done|]. right.
      apply Nat.eqb_eq in Hlen. destruct refs as [|x [|? ?]]; try done. by exists x.
    + split_and!; try done. right. exists refs.
      apply Nat.eqb_neq in Hlen. by split_and!.
  - destruct i as [[|[|n]]|]; simpl; try (left; split_and!; try done; by eexists).
    right. split_and!; try done. left. split; [done | by left].
  - left. split_and!; try done. by eexists.
Qed.

Lemma unsubscribe_keeps_counter this subId :
  currentSubscriptionId (unsubscribe this subId).1.1 = currentSubscriptionId this.
Proof.
  destruct (unsubscribe_cases this subId) as [(-> & _) | (_ & -> & _)]; done.
Qed.

Lemma unsubscribe_transform this subId :
  triggerTransform (unsubscribe this subId).1.1 = triggerTransform this.
Proof.
  destruct (unsubscribe_cases this subId) as [(-> & _) | (-> & _)]; done.
Qed.

Lemma run_operation_transform this op :
  triggerTransform (run_operation this op) = triggerTransform this.
Proof.
  destruct op; simpl; [apply subscribe_transform | apply unsubscribe_transform].
Qed.

Lemma subscribe_calls_step this op ops :
  subscribe_calls (run_operation this op) ops = subscribe_calls this ops.
Proof.
  unfold subscribe_calls. by rewrite run_operation_transform.
Qed.

Lemma subscribe_calls_cons this op ops :
  subscribe_calls this (op :: ops)
  = match op with
    | OpSubscribe trigger _ options _ =>
        match triggerTransform this trigger options with
        | Normal _ => 1
        | Throw _ => 0
        end
    | OpUnsubscribe _ => 0
    end + subscribe_calls this ops.
Proof.
  unfold subscribe_calls. simpl.
  destruct op as [trigger f options err | subId]; [|done].
  by destruct (triggerTransform this trigger options).
Qed.

(** X4. From a counter between 0 and 2^53, after any sequence of calls
    the counter is the smaller of 2^53 and the former counter plus the
    number of calls of [subscribe] whose trigger transform returned;
    [unsubscribe] never changes it. *)
Theorem counter_counts_subscribe_calls this ops :
  counter_in_range this →
  currentSubscriptionId (run_operations this ops)
  = Z.min (2 ^ 53) (currentSubscriptionId this + Z.of_nat (subscribe_calls this ops)).
Proof.
  unfold run_operations, counter_in_range.
  induction ops as [|op ops IH] in this |- *; intros Hc; simpl.
  - unfold subscribe_calls. simpl. lia.
  - rewrite subscribe_calls_cons, <- (subscribe_calls_step this op ops).
    destruct op as [trigger f options err | subId]; simpl.
    + pose proof (subscribe_counter this trigger f options err) as Hcount.
      destruct (triggerTransform this trigger options).
      * rewrite IH; rewrite Hcount; [|by apply increment_in_range].
        rewrite increment_min by done. lia.
      * rewrite IH; rewrite Hcount; [lia | done].
    + rewrite IH; rewrite unsubscribe_keeps_counter; [lia | done].
Qed.

(** ** The two tables *)

Lemma new_registry_empty ioredis options this :
  new_RedisPubSub ioredis options = Normal this →
  subscriptionMap this = ∅ ∧ subsRefsMap this = ∅ ∧ currentSubscriptionId this = 0%Z.
Proof.
  unfold new_RedisPubSub.
  destruct (opt_reviver options), (opt_deserializer options); try done;
    destruct (_ || _); try done; by intros [= <-].
Qed.

Lemma new_registry_consistent ioredis options this :
  new_RedisPubSub ioredis options = Normal this →
  consistent this ∧ lists_shadow_nothing this ∧ records_have_refs this.
Proof.
  intros (Hsm & Hrefs & _)%new_registry_empty.
  split; [split; [|split]|split].
  - intros k refs s. by rewrite Hrefs, lookup_empty.
  - intros k refs. by rewrite Hrefs, lookup_empty.
  - intros s r. by rewrite Hsm, lookup_empty.
  - intros k refs. by rewrite Hrefs, lookup_empty.
  - intros s k f. by rewrite Hsm, lookup_empty.
Qed.

Lemma subscribe_keeps_consistent this trigger f options err :
  consistent this →
  (0 ≤ currentSubscriptionId this < 2 ^ 53)%Z →
  consistent (subscribe this trigger f options err).1.1.
Proof.
  intros (Hrec & Hdist & Hiss) Hc.
  destruct (triggerTransform this trigger options) as [t|e] eqn:Ht;
    [|by rewrite (subscribe_throwing_transform _ _ _ _ _ _ Ht)].
  destruct (subscribe_state this trigger f options err t Ht) as (_ & Hsm & Hcount & Hrefs).
  set (id := currentSubscriptionId this) in *.
  rewrite increment_below in Hcount by done.
  assert (Hfresh : ∀ k refs, subsRefsMap this !! k = Some refs → id ∉ refs).
  { intros k refs Hk Hin. destruct (Hrec _ _ _ Hk Hin) as [f0 Hf0].
    apply Hiss in Hf0. unfold id in Hf0. lia. }
  assert (Hold : ∀ k refs s, subsRefsMap this !! k = Some refs → s ∈ refs →
            ∃ f0, <[id := (t, f)]> (subscriptionMap this) !! s = Some (k, f0)).
  { intros k refs s Hk Hs. destruct (Hrec _ _ _ Hk Hs) as [f0 Hf0].
    exists f0. rewrite lookup_insert_ne; [done|].
    intros <-. by eapply Hfresh. }
  assert (Hissued : ∀ s r, <[id := (t, f)]> (subscriptionMap this) !! s = Some r →
            (s < id + 1)%Z).
  { intros s r. rewrite lookup_insert. case_decide; [lia|].
    intros Hs. apply Hiss in Hs. unfold id. lia. }
  unfold consistent, refs_have_records, refs_distinct, ids_issued.
  rewrite Hsm, Hcount.
  destruct Hrefs as [-> | [-> _]]; [done|].
  split; [|split]; [| |done].
  - intros k refs s. rewrite lookup_insert. case_decide as Hk.
    + subst k. intros [= <-]. rewrite elem_of_app, list_elem_of_singleton.
      intros [Hs | ->]; [|exists f; by rewrite lookup_insert_eq].
      destruct (subsRefsMap this !! t) as [old|] eqn:Hold'; simpl in Hs;
        [by eapply Hold | by apply elem_of_nil in Hs].
    + intros Hk' Hs. by eapply Hold.
  - intros k refs. rewrite lookup_insert. case_decide as Hk; [|apply Hdist].
    subst k. intros [= <-]. split; [|by destruct (default _ _)].
    destruct (subsRefsMap this !! t) as [old|] eqn:Hold'; simpl;
      [|apply NoDup_singleton].
    apply NoDup_app. split; [by apply (Hdist t)|].
    split; [|apply NoDup_singleton].
    intros x Hx ->%list_elem_of_singleton. by eapply Hfresh.
Qed.

Lemma subscribe_shadows_nothing this trigger f options err :
  lists_shadow_nothing this →
  lists_shadow_nothing (subscribe this trigger f options err).1.1.
Proof.
  intros Hsh.
  destruct (triggerTransform this trigger options) as [t|e] eqn:Ht;
    [|by rewrite (subscribe_throwing_transform _ _ _ _ _ _ Ht)].
  destruct (subscribe_state this trigger f options err t Ht) as (_ & _ & _ & Hrefs).
  unfold lists_shadow_nothing.
  destruct Hrefs as [-> | [-> Hord]]; [done|].
  intros k refs. rewrite lookup_insert. case_decide as Hk; [|apply Hsh].
  subst k. intros _. destruct Hord as [|[old Hold]]; [done | by eapply Hsh].
Qed.

Lemma unsubscribe_keeps_consistent this subId :
  consistent this → consistent (unsubscribe this subId).1.1.
Proof.
  intros (Hrec & Hdist & Hiss).
  destruct (unsubscribe_cases this subId)
    as [(-> & _) | (_ & Hcount & Hsm & _ & Hrefs)]; [done|].
  set (key := channel_of this subId) in *.
  assert (Hother : ∀ k refs s, k ≠ key → subsRefsMap this !! k = Some refs →
            s ∈ refs → s ≠ subId).
  { intros k refs s Hk Hk' Hs ->. destruct (Hrec _ _ _ Hk' Hs) as [f0 Hf0].
    apply Hk. unfold key, channel_of. by rewrite Hf0. }
  unfold consistent, refs_have_records, refs_distinct, ids_issued.
  rewrite Hsm, Hcount.
  assert (Hissued : ∀ s r, delete subId (subscriptionMap this) !! s = Some r →
            (s < currentSubscriptionId this)%Z).
  { intros s r. rewrite lookup_delete. case_decide; [done | apply Hiss]. }
  destruct Hrefs as [[-> _] | (refs' & Hkey & Hlen & _ & ->)].
  - split; [|split]; [| |done].
    + intros k refs s. rewrite lookup_delete. case_decide as Hk; [done|].
      intros Hk' Hs. destruct (Hrec _ _ _ Hk' Hs) as [f0 Hf0].
      exists f0. rewrite lookup_delete_ne; [done|].
      intros <-. by eapply (Hother k refs subId).
    + intros k refs. rewrite lookup_delete. case_decide; [done | apply Hdist].
  - destruct (Hdist _ _ Hkey) as [Hnd Hne].
    split; [|split]; [| |done].
    + intros k refs s. rewrite lookup_insert. case_decide as Hk.
      * subst k. intros [= <-] Hs.
        destruct (without_first_NoDup refs' subId Hnd) as [_ Hnot].
        destruct (Hrec _ _ s Hkey) as [f0 Hf0]; [by eapply without_first_subseteq|].
        exists f0. rewrite lookup_delete_ne; [done|]. by intros <-.
      * intros Hk' Hs. destruct (Hrec _ _ _ Hk' Hs) as [f0 Hf0].
        exists f0. rewrite lookup_delete_ne; [done|].
        intros <-. by eapply (Hother k refs subId).
    + intros k refs. rewrite lookup_insert. case_decide as Hk; [|apply Hdist].
      intros [= <-]. split; [by apply without_first_NoDup|].
      pose proof (without_first_length refs' subId) as Hl.
      destruct refs' as [|? [|? ?]]; [done | done |].
      simpl in Hl. destruct (without_first _ _); [simpl in Hl; lia | done].
Qed.

Lemma unsubscribe_shadows_nothing this subId :
  lists_shadow_nothing this → lists_shadow_nothing (unsubscribe this subId).1.1.
Proof.
  intros Hsh.
  destruct (unsubscribe_cases this subId)
    as [(-> & _) | (_ & _ & _ & _ & Hrefs)]; [done|].
  unfold lists_shadow_nothing.
  destruct Hrefs as [[-> _] | (refs' & Hkey & _ & _ & ->)].
  - intros k refs. rewrite lookup_delete. case_decide; [done | apply Hsh].
  - intros k refs. rewrite lookup_insert. case_decide as Hk; [|apply Hsh].
    subst k. intros _. by eapply Hsh.
Qed.

(** As long as the counter has not reached 2^53, complete calls keep the
    registry consistent. *)
Lemma calls_keep_consistent this ops :
  consistent this →
  lists_shadow_nothing this →
  (0 ≤ currentSubscriptionId this)%Z →
  (currentSubscriptionId this + Z.of_nat (subscribe_calls this ops) ≤ 2 ^ 53)%Z →
  consistent (run_operations this ops) ∧ lists_shadow_nothing (run_operations this ops).
Proof.
  unfold run_operations.
  induction ops as [|op ops IH] in this |- *; intros Hc Hsh Hpos Hbound; [done|].
  simpl. rewrite subscribe_calls_cons in Hbound.
  rewrite <- (subscribe_calls_step this op ops) in Hbound.
  destruct op as [trigger f options err | subId]; simpl in *.
  - pose proof (subscribe_counter this trigger f options err) as Hcount.
    destruct (triggerTransform this trigger options) as [t|e] eqn:Ht.
    + rewrite increment_below in Hcount by lia.
      apply IH; [apply subscribe_keeps_consistent; [done | lia]
                | by apply subscribe_shadows_nothing | lia | lia].
    + apply IH; [|by apply subscribe_shadows_nothing | lia | lia].
      by rewrite (subscribe_throwing_transform _ _ _ _ _ _ Ht).
  - apply IH; [by apply unsubscribe_keeps_consistent | by apply unsubscribe_shadows_nothing
              | by rewrite unsubscribe_keeps_counter | rewrite unsubscribe_keeps_counter; lia].
Qed.

(** X10. Whatever calls of [subscribe] and [unsubscribe] are made on a
    new registry, accepted or not and for whatever trigger names, as long
    as at most 2^53 of the subscribes reach line 88: every listed id has its
    record under the key of its list, no list is empty or holds an id twice,
    every id in use is below the counter, and no list is stored under a name
    that [Object.prototype] defines. *)
Theorem registry_stays_consistent ioredis options this ops :
  new_RedisPubSub ioredis options = Normal this →
  (Z.of_nat (subscribe_calls this ops) ≤ 2 ^ 53)%Z →
  refs_have_records (run_operations this ops)
  ∧ refs_distinct (run_operations this ops)
  ∧ ids_issued (run_operations this ops)
  ∧ lists_shadow_nothing (run_operations this ops).
Proof.
  intros Hnew Hbound.
  destruct (new_registry_consistent _ _ _ Hnew) as (Hc & Hsh & _).
  destruct (new_registry_empty _ _ _ Hnew) as (_ & _ & Hzero).
  destruct (calls_keep_consistent this ops Hc Hsh) as [(? & ? & ?) ?];
    [lia | lia | done].
Qed.

Lemma accepted_subscribe_keeps_bijection this trigger f options t :
  triggerTransform this trigger options = Normal t →
  Object_prototype t = None →
  records_have_refs this →
  records_have_refs (subscribe this trigger f options None).1.1.
Proof.
  intros Ht Hord Hrefs. rewrite (subscribe_accepted_state _ _ _ _ t) by done. simpl.
  set (id := currentSubscriptionId this).
  intros s k f0. simpl. rewrite lookup_insert. case_decide as Hs.
  - intros [= <- <-]. eexists. rewrite lookup_insert_eq. split; [done|].
    rewrite elem_of_app, list_elem_of_singleton. by right.
  - intros Hrec. destruct (Hrefs _ _ _ Hrec) as (refs & Hk & Hin).
    destruct (decide (k = t)) as [->|Hk'].
    + eexists. rewrite lookup_insert_eq. split; [done|].
      rewrite Hk. simpl. rewrite elem_of_app. by left.
    + exists refs. by rewrite lookup_insert_ne.
Qed.

Lemma known_unsubscribe_keeps_bijection this subId :
  records_have_refs this →
  is_Some (subscriptionMap this !! subId) →
  records_have_refs (unsubscribe this subId).1.1.
Proof.
  intros Hrefs [[t f] Hrec].
  destruct (Hrefs _ _ _ Hrec) as (refs' & Ht & Hin).
  destruct (unsubscribe_cases this subId)
    as [(-> & _) | (_ & _ & Hsm & _ & Hlists)]; [done|].
  assert (Hkey : channel_of this subId = t).
  { unfold channel_of. by rewrite Hrec. }
  rewrite Hkey in Hlists. unfold records_have_refs. rewrite Hsm.
  destruct Hlists as [[-> Hone] | (refs & Hk & Hlen & _ & ->)].
  - destruct Hone as [Hnone | [x Hx]]; [congruence|].
    rewrite Ht in Hx. injection Hx as ->.
    apply list_elem_of_singleton in Hin as <-.
    intros s k f0. rewrite lookup_delete. case_decide as Hs; [done|].
    intros Hrec'. destruct (Hrefs _ _ _ Hrec') as (refs & Hk & Hin').
    destruct (decide (k = t)) as [->|Hk'].
    + rewrite Ht in Hk. injection Hk as <-.
      apply list_elem_of_singleton in Hin'. congruence.
    + exists refs. by rewrite lookup_delete_ne.
  - rewrite Ht in Hk. injection Hk as <-.
    intros s k f0. rewrite lookup_delete. case_decide as Hs; [done|].
    intros Hrec'. destruct (Hrefs _ _ _ Hrec') as (refs & Hk & Hin').
    destruct (decide (k = t)) as [->|Hk'].
    + rewrite Ht in Hk. injection Hk as <-.
      exists (without_first refs' subId). rewrite lookup_insert_eq.
      split; [done|]. apply without_first_other; [done | congruence].
    + exists refs. by rewrite lookup_insert_ne.
Qed.

Lemma orderly_keeps_bijection this ops :
  records_have_refs this → orderly this ops →
  records_have_refs (run_operations this ops).
Proof.
  unfold run_operations.
  induction ops as [|op ops IH] in this |- *; [done|].
  intros Hrefs [Hop Hops]. simpl. apply IH; [|done].
  destruct op as [trigger f options err | subId]; simpl in *.
  - destruct Hop as (-> & t & Ht & Hord).
    by eapply accepted_subscribe_keeps_bijection.
  - by apply known_unsubscribe_keeps_bijection.
Qed.

(** X11. On a new registry, when every subscribe is for a trigger name
    that [Object.prototype] does not define and is accepted by the Redis
    client, every [unsubscribe] is given an id that has a record, and at
    most 2^53 subscribes are made, the two tables stay in bijection: every
    record has its id in the list of its channel, and every listed id has
    its record. *)
Theorem orderly_operations_keep_bijection ioredis options this ops :
  new_RedisPubSub ioredis options = Normal this →
  orderly this ops →
  (Z.of_nat (subscribe_calls this ops) ≤ 2 ^ 53)%Z →
  records_have_refs (run_operations this ops)
  ∧ refs_have_records (run_operations this ops)
  ∧ refs_distinct (run_operations this ops).
Proof.
  intros Hnew Hord Hbound.
  destruct (new_registry_consistent _ _ _ Hnew) as (Hc & Hsh & Hbij).
  destruct (new_registry_empty _ _ _ Hnew) as (_ & _ & Hzero).
  destruct (calls_keep_consistent this ops Hc Hsh) as [(? & ? & ?) ?];
    [lia | lia |].
  split; [|done]. by apply orderly_keeps_bijection.
Qed.



(** X12. Two subscribes to one channel without a list, whose name
    [Object.prototype] does not define, the second made before the Redis
    client has answered the first, with the counter below 2^53: each sends a
    subscribe to Redis, they get the counter and the counter plus one, and
    once both are confirmed the list holds the two ids in the order of the
    confirmations. *)
Theorem concurrent_first_subscribes this trigger1 f1 options1 trigger2 f2 options2 t :
  triggerTransform this trigger1 options1 = Normal t →
  triggerTransform this trigger2 options2 = Normal t →
  Object_prototype t = None →
  subsRefsMap this !! t = None →
  (0 ≤ currentSubscriptionId this < 2 ^ 53)%Z →
  ∃ this1 this2 p1 p2,
    subscribe_call this trigger1 f1 options1
      = (this1, [transport_subscribe options1 t], Normal (inr p1))
    ∧ subscribe_call this1 trigger2 f2 options2
      = (this2, [transport_subscribe options2 t], Normal (inr p2))
    ∧ pending_id p1 = currentSubscriptionId this
    ∧ pending_id p2 = (currentSubscriptionId this + 1)%Z
    ∧ subsRefsMap (subscribe_callback p2 None (subscribe_callback p1 None this2).1).1 !! t
      = Some [pending_id p1; pending_id p2]
    ∧ subsRefsMap (subscribe_callback p1 None (subscribe_callback p2 None this2).1).1 !! t
      = Some [pending_id p2; pending_id p1].
Proof.
  intros Ht1 Ht2 Hord Hnone Hc.
  rewrite (subscribe_call_cases _ _ _ _ _ Ht1). simpl.
  rewrite get_ordinary, Hnone by done.
  do 4 eexists. split; [reflexivity|].
  rewrite (subscribe_call_cases _ _ _ _ t) by done. simpl.
  rewrite get_ordinary, Hnone by done.
  split; [reflexivity|]. simpl.
  split; [done|]. split; [by apply increment_below|].
  unfold subscribe_callback. simpl. rewrite !get_ordinary by done. simpl.
  rewrite Hnone. simpl.
  rewrite !(lookup_insert_eq (subsRefsMap this)). simpl.
  split; apply lookup_insert_eq.
Qed.

(** X13. Between a first [subscribe] to a channel, whose name
    [Object.prototype] does not define, and the answer of the Redis client,
    the id has a record but the channel has no list: an [unsubscribe] of the
    id throws that there is no subscription and changes nothing, and the
    confirmation then lists the id, whose record is still there. *)
Theorem unsubscribe_before_confirmation this trigger f options t :
  triggerTransform this trigger options = Normal t →
  Object_prototype t = None →
  subsRefsMap this !! t = None →
  ∃ this1 p,
    subscribe_call this trigger f options
      = (this1, [transport_subscribe options t], Normal (inr p))
    ∧ pending_id p = currentSubscriptionId this
    ∧ unsubscribe this1 (pending_id p)
      = (this1, [], Throw (NoSubscription (pending_id p)))
    ∧ subsRefsMap (subscribe_callback p None this1).1 !! t = Some [pending_id p]
    ∧ subscriptionMap (subscribe_callback p None this1).1 !! pending_id p = Some (t, f).
Proof.
  intros Ht Hord Hnone.
  rewrite (subscribe_call_cases _ _ _ _ _ Ht). simpl.
  rewrite get_ordinary, Hnone by done.
  do 2 eexists. split; [reflexivity|]. simpl. split; [done|].
  split.
  - unfold unsubscribe. simpl.
    rewrite (lookup_insert_eq (subscriptionMap this)). simpl.
    by rewrite get_ordinary, Hnone.
  - unfold subscribe_callback. simpl. rewrite get_ordinary, Hnone by done. simpl.
    split; apply lookup_insert_eq.
Qed.

(** ** onMessage *)

Lemma onMessage_listed this pattern channel message h subscribers :
  subsRefsMap this !! dispatch_key pattern channel = Some subscribers →
  subscribers ≠ [] →
  onMessage this pattern channel message h =
    (let '(h1, parsedMessage) := parse_message this message h in
     let '(this1, h2, evs, r) := fan_out this parsedMessage subscribers h1 in
     (this1, h2, EvDecode message :: evs, r)).
Proof.
  intros Hrefs Hne. unfold onMessage. rewrite (get_own _ _ _ Hrefs).
  by destruct subscribers.
Qed.

(** What [onMessage] does when the dispatch key has no list of its
    own. *)
Lemma onMessage_unlisted this pattern channel message h :
  subsRefsMap this !! dispatch_key pattern channel = None →
  onMessage this pattern channel message h =
    match Object_prototype (dispatch_key pattern channel) with
    | Some (Method (S _)) =>
        (this, (parse_message this message h).1, [EvDecode message], Throw TypeError)
    | _ => (this, h, [], Normal tt)
    end.
Proof.
  intros Hnone. unfold onMessage, get. rewrite Hnone.
  destruct (Object_prototype _) as [[[|n]|]|]; try done.
  by destruct (parse_message this message h).
Qed.

(** *** Functions that make no call on the registry *)

Lemma invoke_quiet this f v h :
  quiet f v →
  invoke this f v h
  = (this, (fn_call (listener f) v h).1, [EvCall (listener f) v],
     (fn_call (listener f) v h).2).
Proof.
  intros Hq. unfold invoke. rewrite Hq. simpl.
  by destruct (fn_call (listener f) v h) as [h1 [[]|e]].
Qed.


Lemma fan_out_quiet_deliveries this v subscribers h :
  (∀ subId t f, subId ∈ subscribers →
     subscriptionMap this !! subId = Some (t, f) → quiet f v) →
  ∃ h' evs r invoked,
    fan_out this v subscribers h = (this, h', evs, r)
    ∧ invoked `prefix_of` subscribers
    ∧ Forall2 (delivery this v) invoked evs
    ∧ (r = Normal tt → invoked = subscribers).
Proof.
  induction subscribers as [|subId rest IH] in h |- *; intros Hall; simpl.
  - exists h, [], (Normal tt), []. by repeat split; try constructor.
  - destruct (subscriptionMap this !! subId) as [[t f]|] eqn:Hrec.
    + rewrite invoke_quiet by (eapply Hall; [by left | done]).
      destruct (fn_call (listener f) v h) as [h1 [[]|e]]; simpl.
      * destruct (IH h1) as (h2 & evs & r & invoked & Hrest & Hpre & Hdel & Hnormal).
        { intros s t' f' Hs. apply Hall. by right. }
        rewrite Hrest. exists h2, (EvCall (listener f) v :: evs), r, (subId :: invoked).
        split; [done|]. split; [by apply prefix_cons|].
        split; [constructor; [by exists t, f | done]|].
        intros Hr. by rewrite Hnormal.
      * exists h1, [EvCall (listener f) v], (Throw e), [subId].
        split; [done|]. split; [apply prefix_cons, prefix_nil|].
        split; [repeat constructor; by exists t, f | done].
    + exists h, [], (Throw TypeError), [].
      split; [done|]. split; [apply prefix_nil|]. split; [constructor | done].
Qed.

(** *** The value handed to the functions *)









(** X17. On a new registry, after calls of which every subscribe was
    for a trigger name that [Object.prototype] does not define and was
    accepted, and no [unsubscribe] was given an id without a record: when
    no function of the registry makes a call on the registry when it is
    given the decoded message, an [onMessage] that returns has called the
    function of every subscription to the dispatch key with the decoded
    message. *)
Theorem live_subscription_is_called
    ioredis options this0 ops subId f pattern channel message h this' h' evs :
  new_RedisPubSub ioredis options = Normal this0 →
  orderly this0 ops →
  subscriptionMap (run_operations this0 ops) !! subId
    = Some (dispatch_key pattern channel, f) →
  (∀ s t' f', subscriptionMap (run_operations this0 ops) !! s = Some (t', f') →
     quiet f' (parse_message (run_operations this0 ops) message h).2) →
  onMessage (run_operations this0 ops) pattern channel message h
    = (this', h', evs, Normal tt) →
  EvCall (listener f) (parse_message (run_operations this0 ops) message h).2 ∈ evs.
Proof.
  intros Hnew Hord Hrec Hquiet Hon.
  destruct (new_registry_consistent _ _ _ Hnew) as (_ & _ & Hempty).
  pose proof (orderly_keeps_bijection this0 ops Hempty Hord) as Hbij.
  set (this := run_operations this0 ops) in *.
  destruct (Hbij _ _ _ Hrec) as (refs & Hrefs & Hin).
  rewrite (onMessage_listed _ _ _ _ _ _ Hrefs) in Hon
    by (intros ->; by apply elem_of_nil in Hin).
  destruct (parse_message this message h) as [h1 v]. simpl in *.
  destruct (fan_out_quiet_deliveries this v refs h1)
    as (h2 & calls & r & invoked & Hfan & _ & Hdel & Hall).
  { intros s t' f' _. apply Hquiet. }
  rewrite Hfan in Hon. injection Hon as _ _ <- ->.
  rewrite Hall in Hdel by done.
  apply list_elem_of_lookup in Hin as [i Hi].
  destruct (Forall2_lookup_l _ _ _ _ _ Hdel Hi) as (ev & Hev & t & f' & Hf' & ->).
  rewrite Hrec in Hf'. injection Hf' as <- <-.
  apply elem_of_cons. right. by eapply list_elem_of_lookup_2.
Qed.

(** X1. The constructor throws when the options give both a reviver and
    a deserializer.  With other options it throws a TypeError (line 68) when
    they do not give both clients and no subscriber client could be created
    from ioredis.  Otherwise it returns a registry without subscriptions
    whose counter is 0, whose codec is the one given and whose trigger
    transform is the one given, or the identity when none is given.  Such a
    registry drops a message, unless the dispatch key names a method of
    [Object.prototype] that has parameters: then it decodes the message and
    throws a TypeError. *)
Theorem constructor_outcomes ioredis options :
  (is_Some (opt_reviver options) ∧ is_Some (opt_deserializer options) →
   new_RedisPubSub ioredis options = Throw ConfigError)
  ∧ (opt_reviver options = None ∨ opt_deserializer options = None →
     (opt_subscriber options && opt_publisher options) || ioredis = false →
     new_RedisPubSub ioredis options = Throw TypeError)
  ∧ (opt_reviver options = None ∨ opt_deserializer options = None →
     (opt_subscriber options && opt_publisher options) || ioredis = true →
     ∃ this,
       new_RedisPubSub ioredis options = Normal this
       ∧ subscriptionMap this = ∅ ∧ subsRefsMap this = ∅
       ∧ currentSubscriptionId this = 0%Z
       ∧ reviver this = opt_reviver options
       ∧ serializer this = opt_serializer options
       ∧ deserializer this = opt_deserializer options
       ∧ (opt_triggerTransform options = None →
          ∀ trigger opts, triggerTransform this trigger opts = Normal trigger)
       ∧ (∀ g, opt_triggerTransform options = Some g → triggerTransform this = g)
       ∧ ∀ pattern channel message h,
           onMessage this pattern channel message h
           = match Object_prototype (dispatch_key pattern channel) with
             | Some (Method (S _)) =>
                 (this, (parse_message this message h).1, [EvDecode message],
                  Throw TypeError)
             | _ => (this, h, [], Normal tt)
             end).
Proof.
  unfold new_RedisPubSub. split; [|split].
  - by intros [[rv ->] [d ->]].
  - intros Hnone ->. destruct (opt_reviver options), (opt_deserializer options);
      try done. by destruct Hnone.
  - intros Hnone ->.
    assert (Hdrop : ∀ this, subsRefsMap this = ∅ →
              ∀ pattern channel message h,
                onMessage this pattern channel message h
                = match Object_prototype (dispatch_key pattern channel) with
                  | Some (Method (S _)) =>
                      (this, (parse_message this message h).1, [EvDecode message],
                       Throw TypeError)
                  | _ => (this, h, [], Normal tt)
                  end).
    { intros this Hrefs pattern channel message h.
      apply onMessage_unlisted. by rewrite Hrefs, lookup_empty. }
    destruct options as [tf sub pub rv ser des]. simpl in *.
    destruct rv, des; try (by destruct Hnone);
      (eexists; split; [reflexivity|]; simpl; split_and!; try done;
       try (by intros ->); try (by intros g [= ->]); by apply Hdrop).
Qed.

(** X19. The dispatch key is the pattern when there is one and the
    channel otherwise, for the events that Redis reports: an empty pattern
    comes with the empty channel only.  A message whose dispatch key has an
    empty list is dropped.  A message whose dispatch key has no list is
    dropped too, unless the key names a method of [Object.prototype] that
    has parameters: then the message is decoded and [onMessage] throws a
    TypeError. *)
Theorem onMessage_without_list this pattern channel message h :
  ((pattern = Some "" → channel = "") →
   dispatch_key pattern channel = default channel pattern)
  ∧ (subsRefsMap this !! dispatch_key pattern channel = Some [] →
     onMessage this pattern channel message h = (this, h, [], Normal tt))
  ∧ (subsRefsMap this !! dispatch_key pattern channel = None →
     onMessage this pattern channel message h
     = match Object_prototype (dispatch_key pattern channel) with
       | Some (Method (S _)) =>
           (this, (parse_message this message h).1, [EvDecode message], Throw TypeError)
       | _ => (this, h, [], Normal tt)
       end).
Proof.
  split; [|split].
  - unfold dispatch_key. destruct pattern as [p|]; [|done]. simpl.
    destruct (String.eqb_spec p ""); [|done]. intros Hreal. subst p. by rewrite Hreal.
  - intros Hrefs. unfold onMessage. by rewrite (get_own _ _ _ Hrefs).
  - apply onMessage_unlisted.
Qed.

End Registry.
End Js_facts.

(** ** The two models agree *)

Section Agreement.
Context `{Runtime}.

Implicit Types (this : RedisPubSub) (subId : Z) (l : Listener).

Lemma embed_lookup this subId :
  Js.subscriptionMap (embed this) !! subId
  = (λ r, (r.1, fn r.2)) <$> subscriptionMap this !! subId.
Proof. unfold embed. simpl. apply lookup_fmap. Qed.

Lemma embed_with_subscriptionMap_insert this subId t l :
  embed (with_subscriptionMap (<[subId := (t, l)]> (subscriptionMap this)) this)
  = Js.with_subscriptionMap
      (<[subId := (t, fn l)]> (Js.subscriptionMap (embed this))) (embed this).
Proof. unfold embed, Js.with_subscriptionMap. simpl. by rewrite fmap_insert. Qed.

Lemma embed_with_subscriptionMap_delete this subId :
  embed (with_subscriptionMap (delete subId (subscriptionMap this)) this)
  = Js.with_subscriptionMap (delete subId (Js.subscriptionMap (embed this))) (embed this).
Proof. unfold embed, Js.with_subscriptionMap. simpl. by rewrite fmap_delete. Qed.

(** [subscribe], for a trigger name that [Object.prototype] does not
    define and a counter below 2^53. *)
Lemma subscribe_agrees this trigger l options err :
  Js.Object_prototype (triggerTransform this trigger options) = None →
  (0 ≤ currentSubscriptionId this < 2 ^ 53)%Z →
  Js.subscribe (embed this) trigger (fn l) options err
  = (embed (subscribe this trigger l options err).1.1,
     (subscribe this trigger l options err).1.2,
     settled (subscribe this trigger l options err).2).
Proof.
  intros Hord Hc.
  unfold Js.subscribe, Js.subscribe_call, subscribe, subscribe_call. simpl.
  rewrite Js_facts.get_ordinary by done.
  rewrite Js_facts.increment_below by done.
  set (t := triggerTransform this trigger options) in *.
  destruct (subsRefsMap this !! t) as [[|x refs]|] eqn:Hrefs; simpl.
  - unfold Js.subscribe_callback, subscribe_callback. destruct err as [e|]; simpl.
    + unfold embed, Js.with_subscriptionMap, Js.with_currentSubscriptionId. simpl.
      by rewrite fmap_insert.
    + rewrite Js_facts.get_ordinary by done. simpl. rewrite Hrefs. simpl.
      unfold embed, Js.with_subscriptionMap, Js.with_currentSubscriptionId,
        Js.with_subsRefsMap. simpl.
      by rewrite fmap_insert.
  - unfold embed, Js.with_subscriptionMap, Js.with_currentSubscriptionId,
      Js.with_subsRefsMap. simpl.
    by rewrite fmap_insert.
  - unfold Js.subscribe_callback, subscribe_callback. destruct err as [e|]; simpl.
    + unfold embed, Js.with_subscriptionMap, Js.with_currentSubscriptionId. simpl.
      by rewrite fmap_insert.
    + rewrite Js_facts.get_ordinary by done. simpl. rewrite Hrefs. simpl.
      unfold embed, Js.with_subscriptionMap, Js.with_currentSubscriptionId,
        Js.with_subsRefsMap. simpl.
      by rewrite fmap_insert.
Qed.

(** [unsubscribe], for an id whose channel is no name of
    [Object.prototype]. *)
Lemma unsubscribe_agrees this subId :
  Js.Object_prototype (channel_of this subId) = None →
  Js.unsubscribe (embed this) subId
  = (embed (unsubscribe this subId).1.1, (unsubscribe this subId).1.2,
     (unsubscribe this subId).2).
Proof.
  unfold channel_of. intros Hord.
  unfold Js.unsubscribe, unsubscribe. rewrite embed_lookup.
  assert (Hname : match (λ r, (r.1, fn r.2)) <$> subscriptionMap this !! subId with
                  | Some (t, _) => Some t
                  | None => None
                  end
                  = match subscriptionMap this !! subId with
                    | Some (t, _) => Some t
                    | None => None
                    end).
  { by destruct (subscriptionMap this !! subId) as [[t l]|]. }
  rewrite Hname.
  set (triggerName := match subscriptionMap this !! subId with
                      | Some (t, _) => Some t
                      | None => None
                      end) in *.
  rewrite Js_facts.get_ordinary by done. simpl.
  destruct (subsRefsMap this !! property_key triggerName) as [refs|]; [|done].
  destruct (length refs =? 1); simpl;
    unfold embed, Js.with_subscriptionMap, Js.with_subsRefsMap; simpl;
    by rewrite fmap_delete.
Qed.

Lemma parse_message_agrees this message h :
  Js.parse_message (embed this) message h = parse_message this message h.
Proof. reflexivity. Qed.

Lemma fan_out_agrees this v subscribers h :
  Js.fan_out (embed this) v subscribers h
  = (embed this, (fan_out this v subscribers h).1.1, (fan_out this v subscribers h).1.2,
     (fan_out this v subscribers h).2).
Proof.
  induction subscribers as [|subId rest IH] in h |- *; simpl; [done|].
  rewrite lookup_fmap.
  destruct (subscriptionMap this !! subId) as [[t l]|]; simpl; [|done].
  unfold Js.invoke. simpl.
  destruct (fn_call l v h) as [h1 [[]|e]]; simpl; [|done].
  rewrite IH. by destruct (fan_out this v rest h1) as [[h2 evs] r].
Qed.

(** [onMessage], for a dispatch key that is no name of
    [Object.prototype]. *)
Lemma onMessage_agrees this pattern channel message h :
  Js.Object_prototype (dispatch_key pattern channel) = None →
  Js.onMessage (embed this) pattern channel message h
  = (embed this, (onMessage this pattern channel message h).1.1,
     (onMessage this pattern channel message h).1.2,
     (onMessage this pattern channel message h).2).
Proof.
  intros Hord. unfold Js.onMessage, onMessage.
  rewrite Js_facts.get_ordinary by done. simpl.
  destruct (subsRefsMap this !! dispatch_key pattern channel) as [[|x refs]|]; try done.
  rewrite parse_message_agrees.
  destruct (parse_message this message h) as [h1 v].
  rewrite fan_out_agrees.
  by destruct (fan_out this v (x :: refs) h1) as [[h2 evs] r].
Qed.

End Agreement.

(** ** On examples *)



(** C8. Nothing is subscribed on a new registry, and yet a message on
    the channel named constructor, or for the pattern named hasOwnProperty,
    is not dropped: it is decoded, and [onMessage] throws a TypeError. *)
Theorem message_on_inherited_name_is_not_dropped :
  Js.new_RedisPubSub false js_options = Normal js_fresh_registry
  ∧ Js.subsRefsMap js_fresh_registry !! dispatch_key None "constructor" = None
  ∧ (Js.onMessage js_fresh_registry None "constructor" "1" []).1.2 = [EvDecode "1"]
  ∧ (Js.onMessage js_fresh_registry None "constructor" "1" []).2 = Throw TypeError
  ∧ (Js.onMessage js_fresh_registry (Some "hasOwnProperty") "news" "1" []).1.2
    = [EvDecode "1"]
  ∧ (Js.onMessage js_fresh_registry (Some "hasOwnProperty") "news" "1" []).2
    = Throw TypeError.
Proof. split; [reflexivity|]. repeat split; vm_compute; reflexivity. Qed.

(** What [subscribe] and [unsubscribe] do with names of
    [Object.prototype]. *)
Example subscribe_to_inherited_names :
  (Js.subscribe js_fresh_registry "constructor" (fn (listener_ok "L")) ∅ None).2
    = Js.Throws TypeError
  ∧ (Js.subscribe js_fresh_registry "constructor" (fn (listener_ok "L")) ∅ None).1.2 = []
  ∧ Js.subscriptionMap
      (Js.subscribe js_fresh_registry "constructor" (fn (listener_ok "L")) ∅ None).1.1
      !! 0%Z = Some ("constructor", fn (listener_ok "L"))
  ∧ (Js.unsubscribe
       (Js.subscribe js_fresh_registry "constructor" (fn (listener_ok "L")) ∅ None).1.1 0).1.2
    = [EvUnsubscribe (Some "constructor"); EvPUnsubscribe (Some "constructor")]
  ∧ (Js.subscribe js_fresh_registry "toString" (fn (listener_ok "L")) ∅ None).2
    = Js.Promise (Js.Unsettled TypeError)
  ∧ (Js.subscribe js_fresh_registry "toString" (fn (listener_ok "L")) ∅ None).1.2
    = [EvSubscribe "toString"]
  ∧ Js.subsRefsMap
      (Js.subscribe js_fresh_registry "toString" (fn (listener_ok "L")) ∅ None).1.1
      !! "toString" = None
  ∧ (Js.unsubscribe
       (Js.subscribe js_fresh_registry "toString" (fn (listener_ok "L")) ∅ None).1.1 0).2
    = Throw TypeError
  ∧ (Js.onMessage
       (Js.subscribe js_fresh_registry "toString" (fn (listener_ok "L")) ∅ None).1.1
       None "toString" "1" []).1.2 = [].
Proof. repeat split; vm_compute; reflexivity. Qed.

(** At 2^53 the counter stops: two subscribes get the same id, the record
    of the first is overwritten and the list holds the id twice. *)
Example saturated_counter_repeats_ids :
  (Js.subscribe saturated_registry "a" (fn (listener_ok "L1")) ∅ None).2
    = Js.Promise (Js.Resolved (2 ^ 53))
  ∧ (Js.subscribe
       (Js.subscribe saturated_registry "a" (fn (listener_ok "L1")) ∅ None).1.1
       "a" (fn (listener_ok "L2")) ∅ None).2
    = Js.Promise (Js.Resolved (2 ^ 53))
  ∧ Js.subsRefsMap
      (Js.subscribe
         (Js.subscribe saturated_registry "a" (fn (listener_ok "L1")) ∅ None).1.1
         "a" (fn (listener_ok "L2")) ∅ None).1.1 !! "a"
    = Some [(2 ^ 53)%Z; (2 ^ 53)%Z]
  ∧ Js.subscriptionMap
      (Js.subscribe
         (Js.subscribe saturated_registry "a" (fn (listener_ok "L1")) ∅ None).1.1
         "a" (fn (listener_ok "L2")) ∅ None).1.1 !! (2 ^ 53)%Z
    = Some ("a", fn (listener_ok "L2")).
Proof. repeat split; vm_compute; reflexivity. Qed.

(** A trigger transform that throws: [subscribe] throws what it threw and
    the counter is as it was. *)
Example throwing_transform_leaves_counter :
  (Js.subscribe strict_registry "" (fn (listener_ok "L")) ∅ None).2
    = Js.Throws (Thrown (VString "no trigger"))
  ∧ Js.currentSubscriptionId
      (Js.subscribe strict_registry "" (fn (listener_ok "L")) ∅ None).1.1 = 0%Z
  ∧ Js.subscriptionMap
      (Js.subscribe strict_registry "" (fn (listener_ok "L")) ∅ None).1.1 !! 0%Z = None.
Proof. repeat split; vm_compute; reflexivity. Qed.





Lemma subscribe_accepted_appends_witness :
  (Js.subscribe js_chat_registry "chat.room1" (fn (listener_ok "L'")) ∅ None).2
    = Js.Promise (Js.Resolved 1)
  ∧ (Js.subscribe js_chat_registry "chat.room1" (fn (listener_ok "L'")) ∅ None).1.2 = []
  ∧ Js.subsRefsMap
      (Js.subscribe js_chat_registry "chat.room1" (fn (listener_ok "L'")) ∅ None).1.1
      !! "chat.room1" = Some [0%Z; 1%Z]
  ∧ Js.subscribe js_chat_registry "chat.room1" (fn (listener_ok "L'")) ∅ None
    = (Js.with_subsRefsMap
         (<["chat.room1" :=
              default [] (Js.subsRefsMap js_chat_registry !! "chat.room1")
                ++ [Js.currentSubscriptionId js_chat_registry]]>
            (Js.subsRefsMap js_chat_registry))
         (Js.with_subscriptionMap
            (<[Js.currentSubscriptionId js_chat_registry :=
                 ("chat.room1", fn (listener_ok "L'"))]>
               (Js.subscriptionMap js_chat_registry))
            (Js.with_currentSubscriptionId
               (Js.increment (Js.currentSubscriptionId js_chat_registry)) js_chat_registry)),
       match default [] (Js.subsRefsMap js_chat_registry !! "chat.room1") with
       | [] => [transport_subscribe ∅ "chat.room1"]
       | _ :: _ => []
       end,
       Js.Promise (Js.Resolved (Js.currentSubscriptionId js_chat_registry))).
Proof.
  split; [vm_compute; reflexivity|]. split; [vm_compute; reflexivity|].
  split; [vm_compute; reflexivity|].
  by destruct (Js_facts.subscribe_accepted_appends js_chat_registry "chat.room1"
                 (fn (listener_ok "L'")) ∅ "chat.room1" eq_refl eq_refl) as [Heq _].
Defined.

Lemma counter_counts_subscribe_calls_witness :
  Js.subscribe_calls js_fresh_registry js_mixed_calls = 4
  ∧ Js.currentSubscriptionId (Js.run_operations js_fresh_registry js_mixed_calls) = 4%Z
  ∧ Js.currentSubscriptionId (Js.run_operations js_fresh_registry js_mixed_calls)
    = Z.min (2 ^ 53)
        (Js.currentSubscriptionId js_fresh_registry
         + Z.of_nat (Js.subscribe_calls js_fresh_registry js_mixed_calls))
  ∧ Js.currentSubscriptionId
      (Js.run_operations saturated_registry
         [Js.OpSubscribe "a" (fn (listener_ok "L")) ∅ None])
    = Z.min (2 ^ 53)
        (Js.currentSubscriptionId saturated_registry
         + Z.of_nat (Js.subscribe_calls saturated_registry
                       [Js.OpSubscribe "a" (fn (listener_ok "L")) ∅ None])).
Proof.
  split; [vm_compute; reflexivity|]. split; [vm_compute; reflexivity|]. split.
  - apply (Js_facts.counter_counts_subscribe_calls js_fresh_registry js_mixed_calls).
    vm_compute. split; discriminate.
  - apply (Js_facts.counter_counts_subscribe_calls saturated_registry).
    vm_compute. split; discriminate.
Defined.


Lemma registry_stays_consistent_witness :
  Js.new_RedisPubSub false js_options = Normal js_fresh_registry
  ∧ Js.subscriptionMap (Js.run_operations js_fresh_registry js_mixed_calls) !! 0%Z
    = Some ("chat", fn (listener_ok "L1"))
  ∧ Js.subscriptionMap (Js.run_operations js_fresh_registry js_mixed_calls) !! 3%Z
    = Some ("constructor", fn (listener_ok "L4"))
  ∧ Js.subsRefsMap (Js.run_operations js_fresh_registry js_mixed_calls) !! "chat" = None
  ∧ Js.subsRefsMap (Js.run_operations js_fresh_registry js_mixed_calls) !! "constructor"
    = None
  ∧ Js.subsRefsMap (Js.run_operations js_fresh_registry js_mixed_calls) !! "news"
    = Some [2%Z]
  ∧ Js.refs_have_records (Js.run_operations js_fresh_registry js_mixed_calls)
  ∧ Js.refs_distinct (Js.run_operations js_fresh_registry js_mixed_calls)
  ∧ Js.ids_issued (Js.run_operations js_fresh_registry js_mixed_calls)
  ∧ Js.lists_shadow_nothing (Js.run_operations js_fresh_registry js_mixed_calls).
Proof.
  split; [reflexivity|]. do 5 (split; [vm_compute; reflexivity|]).
  apply (Js_facts.registry_stays_consistent false js_options js_fresh_registry
           js_mixed_calls); [reflexivity|].
  vm_compute. discriminate.
Defined.

Lemma orderly_operations_keep_bijection_witness :
  Js.orderly js_fresh_registry js_orderly_calls
  ∧ Js.subscriptionMap (Js.run_operations js_fresh_registry js_orderly_calls) !! 0%Z = None
  ∧ Js.subscriptionMap (Js.run_operations js_fresh_registry js_orderly_calls) !! 1%Z
    = Some ("orders", fn (listener_copies "L2"))
  ∧ Js.subsRefsMap (Js.run_operations js_fresh_registry js_orderly_calls) !! "orders"
    = Some [1%Z]
  ∧ Js.records_have_refs (Js.run_operations js_fresh_registry js_orderly_calls)
  ∧ Js.refs_have_records (Js.run_operations js_fresh_registry js_orderly_calls)
  ∧ Js.refs_distinct (Js.run_operations js_fresh_registry js_orderly_calls).
Proof.
  assert (Hord : Js.orderly js_fresh_registry js_orderly_calls).
  { repeat split; try (by exists "orders"). eexists. vm_compute. reflexivity. }
  split; [exact Hord|]. do 3 (split; [vm_compute; reflexivity|]).
  apply (Js_facts.orderly_operations_keep_bijection false js_options js_fresh_registry
           js_orderly_calls); [reflexivity | exact Hord |].
  vm_compute. discriminate.
Defined.

Lemma concurrent_first_subscribes_witness :
  ∃ this1 this2 p1 p2,
    Js.subscribe_call js_fresh_registry "chat" (fn (listener_ok "L1")) ∅
      = (this1, [transport_subscribe ∅ "chat"], Normal (inr p1))
    ∧ Js.subscribe_call this1 "chat" (fn (listener_ok "L2")) ∅
      = (this2, [transport_subscribe ∅ "chat"], Normal (inr p2))
    ∧ pending_id p1 = Js.currentSubscriptionId js_fresh_registry
    ∧ pending_id p2 = (Js.currentSubscriptionId js_fresh_registry + 1)%Z
    ∧ Js.subsRefsMap
        (Js.subscribe_callback p2 None (Js.subscribe_callback p1 None this2).1).1 !! "chat"
      = Some [pending_id p1; pending_id p2]
    ∧ Js.subsRefsMap
        (Js.subscribe_callback p1 None (Js.subscribe_callback p2 None this2).1).1 !! "chat"
      = Some [pending_id p2; pending_id p1].
Proof.
  apply (Js_facts.concurrent_first_subscribes js_fresh_registry "chat"
           (fn (listener_ok "L1")) ∅ "chat" (fn (listener_ok "L2")) ∅ "chat");
    try reflexivity.
  vm_compute. split; [discriminate | reflexivity].
Defined.

Lemma unsubscribe_before_confirmation_witness :
  ∃ this1 p,
    Js.subscribe_call js_fresh_registry "chat" (fn (listener_ok "L")) ∅
      = (this1, [transport_subscribe ∅ "chat"], Normal (inr p))
    ∧ pending_id p = Js.currentSubscriptionId js_fresh_registry
    ∧ Js.unsubscribe this1 (pending_id p)
      = (this1, [], Throw (NoSubscription (pending_id p)))
    ∧ Js.subsRefsMap (Js.subscribe_callback p None this1).1 !! "chat" = Some [pending_id p]
    ∧ Js.subscriptionMap (Js.subscribe_callback p None this1).1 !! pending_id p
      = Some ("chat", fn (listener_ok "L")).
Proof.
  apply (Js_facts.unsubscribe_before_confirmation js_fresh_registry "chat"
           (fn (listener_ok "L")) ∅ "chat"); reflexivity.
Defined.

Lemma live_subscription_is_called_witness :
  Js.subscriptionMap (Js.run_operations js_fresh_registry js_orderly_calls)
    = {[1%Z := ("orders", fn (listener_copies "L2"))]}
  ∧ (Js.onMessage (Js.run_operations js_fresh_registry js_orderly_calls)
       None "orders" a1_text []).1.2
    = [EvDecode a1_text; EvCall (listener_copies "L2") (VRef 0)]
  ∧ EvCall (listener_copies "L2")
      (Js.parse_message (Js.run_operations js_fresh_registry js_orderly_calls)
         a1_text []).2
    ∈ [EvDecode a1_text; EvCall (listener_copies "L2") (VRef 0)].
Proof.
  assert (Hsm : Js.subscriptionMap (Js.run_operations js_fresh_registry js_orderly_calls)
                = {[1%Z := ("orders", fn (listener_copies "L2"))]})
    by (vm_compute; reflexivity).
  split; [exact Hsm|]. split; [vm_compute; reflexivity|].
  apply (Js_facts.live_subscription_is_called false js_options js_fresh_registry
           js_orderly_calls 1 (fn (listener_copies "L2")) None "orders" a1_text []
           (Js.onMessage (Js.run_operations js_fresh_registry js_orderly_calls)
              None "orders" a1_text []).1.1.1
           [a1; a1]).
  - reflexivity.
  - repeat split; try (by exists "orders"). eexists. vm_compute. reflexivity.
  - vm_compute. reflexivity.
  - intros s t' f'. rewrite Hsm. by intros [_ [= _ <-]]%lookup_singleton_Some.
  - assert (Heq : ∀ x : Js.RedisPubSub * list json * list event * completion unit,
              x.1.2 = [EvDecode a1_text; EvCall (listener_copies "L2") (VRef 0)] →
              x.1.1.2 = [a1; a1] → x.2 = Normal tt →
              x = (x.1.1.1, [a1; a1],
                   [EvDecode a1_text; EvCall (listener_copies "L2") (VRef 0)], Normal tt)).
    { intros [[[x1 x2] x3] x4]. simpl. by intros -> -> ->. }
    apply Heq; vm_compute; reflexivity.
Defined.
